(** * QVncClient: a shallow embedding of the RFB protocol engine

    The development follows [qvncclient.cpp]: the private implementation
    class [QVncClient::Private] becomes a record of its data members plus
    the socket's buffers and a trace of everything the client does that
    is visible from outside (bytes written, signals emitted, warnings
    logged).  Member functions become computations in a small state
    monad.  The receive path is modelled on a connected socket, which is
    where it runs (it is driven by the [connected] and [readyRead]
    signals), so [isValid()] holds in the template [read]/[write]
    helpers; [keyEvent] takes the socket status explicitly. *)

From Stdlib Require Import ZArith List Bool Lia.
Import ListNotations.
Open Scope Z_scope.

Set Implicit Arguments.

(** ** Wire primitives *)

(** Bytes are integers in [0, 256). *)
Definition byte_ok (b : Z) : Prop := 0 <= b < 256.

Definition wrap8 (v : Z) : Z := v mod 256.
Definition wrap16 (v : Z) : Z := v mod 65536.
Definition wrap32 (v : Z) : Z := v mod 4294967296.

(** Two's complement reading of a 32-bit pattern ([qint32]) and of an
    8-bit pattern ([qint8]). *)
Definition to_int32 (v : Z) : Z :=
  let u := wrap32 v in if u <? 2147483648 then u else u - 4294967296.
Definition to_int8 (v : Z) : Z :=
  let u := wrap8 v in if u <? 128 then u else u - 256.

(** [quint16_be], [quint32_be]: storage is most significant byte first. *)
Definition be16 (v : Z) : list Z :=
  [Z.land (Z.shiftr v 8) 255; Z.land v 255].
Definition be32 (v : Z) : list Z :=
  [Z.land (Z.shiftr v 24) 255; Z.land (Z.shiftr v 16) 255;
   Z.land (Z.shiftr v 8) 255; Z.land v 255].

Definition nthb (bs : list Z) (i : nat) : Z := nth i bs 0.

Definition of_be16 (bs : list Z) : Z :=
  Z.lor (Z.shiftl (nthb bs 0) 8) (nthb bs 1).
Definition of_be32 (bs : list Z) : Z :=
  Z.lor (Z.lor (Z.shiftl (nthb bs 0) 24) (Z.shiftl (nthb bs 1) 16))
        (Z.lor (Z.shiftl (nthb bs 2) 8) (nthb bs 3)).
(** [quint32_le]: least significant byte first. *)
Definition of_le32 (bs : list Z) : Z :=
  Z.lor (Z.lor (nthb bs 0) (Z.shiftl (nthb bs 1) 8))
        (Z.lor (Z.shiftl (nthb bs 2) 16) (Z.shiftl (nthb bs 3) 24)).
Definition of_le16 (bs : list Z) : Z :=
  Z.lor (nthb bs 0) (Z.shiftl (nthb bs 1) 8).
(** The big-endian reading of the same four bytes, for comparison. *)
Definition of_be32_word (bs : list Z) : Z := of_be32 bs.

Definition takeZ {A} (n : Z) (l : list A) : list A := firstn (Z.to_nat n) l.
Definition dropZ {A} (n : Z) (l : list A) : list A := skipn (Z.to_nat n) l.
Definition lenZ {A} (l : list A) : Z := Z.of_nat (length l).

(** ** Data model *)

(** [enum HandshakingState] *)
Inductive HandshakingState :=
| ProtocolVersionState
| SecurityState
| SecurityResultState
| ClientInitState
| ServerInitState
| WaitingState.

(** [enum QVncClient::ProtocolVersion] *)
Inductive ProtocolVersion :=
| ProtocolVersionUnknown
| ProtocolVersion33
| ProtocolVersion37
| ProtocolVersion38.

Definition ProtocolVersion_eqb (a b : ProtocolVersion) : bool :=
  match a, b with
  | ProtocolVersionUnknown, ProtocolVersionUnknown
  | ProtocolVersion33, ProtocolVersion33
  | ProtocolVersion37, ProtocolVersion37
  | ProtocolVersion38, ProtocolVersion38 => true
  | _, _ => false
  end.

(** [enum SecurityType : qint8], kept as its underlying value. *)
Definition SecurityTypeUnknwon : Z := -1.
Definition SecurityTypeInvalid : Z := 0.
Definition SecurityTypeNone : Z := 1.

(** [enum EncodingType] *)
Definition RawEncoding : Z := 0.
Definition CopyRect : Z := 1.
Definition RRE : Z := 2.
Definition Hextile : Z := 5.
Definition ZRLE : Z := 16.
Definition Tight : Z := 7.

(** [enum HextileSubencoding] *)
Definition RawSubencoding : Z := 1.
Definition BackgroundSpecified : Z := 2.
Definition ForegroundSpecified : Z := 4.
Definition AnySubrects : Z := 8.
Definition SubrectsColoured : Z := 16.

(** [enum ClientMessageType : quint8] *)
Definition SetPixelFormat : Z := 0.
Definition SetEncodings : Z := 2.
Definition FramebufferUpdateRequest : Z := 3.

(** [struct PixelFormat] (16 bytes on the wire). *)
Record PixelFormat := mkPixelFormat {
  bitsPerPixel : Z;
  depth : Z;
  bigEndianFlag : Z;
  trueColourFlag : Z;
  redMax : Z;
  greenMax : Z;
  blueMax : Z;
  redShift : Z;
  greenShift : Z;
  blueShift : Z;
  padding1 : Z;
  padding2 : Z;
  padding3 : Z
}.

Definition PixelFormat_default : PixelFormat :=
  mkPixelFormat 0 0 0 0 0 0 0 0 0 0 0 0 0.

Definition PixelFormat_of_bytes (bs : list Z) : PixelFormat :=
  mkPixelFormat (nthb bs 0) (nthb bs 1) (nthb bs 2) (nthb bs 3)
    (of_be16 (firstn 2 (skipn 4 bs))) (of_be16 (firstn 2 (skipn 6 bs)))
    (of_be16 (firstn 2 (skipn 8 bs)))
    (nthb bs 10) (nthb bs 11) (nthb bs 12)
    (nthb bs 13) (nthb bs 14) (nthb bs 15).

Definition PixelFormat_to_bytes (pf : PixelFormat) : list Z :=
  [bitsPerPixel pf; depth pf; bigEndianFlag pf; trueColourFlag pf]
  ++ be16 (redMax pf) ++ be16 (greenMax pf) ++ be16 (blueMax pf)
  ++ [redShift pf; greenShift pf; blueShift pf;
      padding1 pf; padding2 pf; padding3 pf].

(** [struct Rectangle]: four [quint16_be]. *)
Record Rectangle := mkRect { rx : Z; ry : Z; rw : Z; rh : Z }.

Definition Rectangle_of_bytes (bs : list Z) : Rectangle :=
  mkRect (of_be16 (firstn 2 bs)) (of_be16 (firstn 2 (skipn 2 bs)))
         (of_be16 (firstn 2 (skipn 4 bs))) (of_be16 (firstn 2 (skipn 6 bs))).

Definition Rectangle_to_bytes (r : Rectangle) : list Z :=
  be16 (rx r) ++ be16 (ry r) ++ be16 (rw r) ++ be16 (rh r).

(** ** The framebuffer image

    [QImage] in [Format_ARGB32]: a size and a pixel per coordinate.  A
    [QImage] built with a non-positive width or height is the null image
    of size 0x0. *)
Record QImage := mkImage { iw : Z; ih : Z; ipx : Z -> Z -> Z }.

Definition white : Z := 4294967295.

Definition QImage_null : QImage := mkImage 0 0 (fun _ _ => 0).

Definition QImage_new_white (w h : Z) : QImage :=
  if (w <=? 0) || (h <=? 0) then QImage_null
  else mkImage w h (fun _ _ => white).

Definition in_image (img : QImage) (x y : Z) : bool :=
  (0 <=? x) && (x <? iw img) && (0 <=? y) && (y <? ih img).

Definition pixel (img : QImage) (x y : Z) : Z := ipx img x y.

Definition put_pixel (img : QImage) (x y c : Z) : QImage :=
  mkImage (iw img) (ih img)
    (fun x' y' => if (x' =? x) && (y' =? y) then c else ipx img x' y').

(** [qRgb(r, g, b)] *)
Definition qRgb (r g b : Z) : Z :=
  Z.lor (Z.lor 4278190080 (Z.shiftl (Z.land r 255) 16))
        (Z.lor (Z.shiftl (Z.land g 255) 8) (Z.land b 255)).

(** The three lines
    [(color >> shift) & max] for red, green and blue followed by [qRgb],
    as they occur in every decoder. *)
Definition rgb_of (pf : PixelFormat) (color : Z) : Z :=
  let r := Z.land (Z.shiftr color (redShift pf)) (redMax pf) in
  let g := Z.land (Z.shiftr color (greenShift pf)) (greenMax pf) in
  let b := Z.land (Z.shiftr color (blueShift pf)) (blueMax pf) in
  qRgb r g b.

(** [QPainter::drawImage(x, y, src)] on an opaque source: every source
    pixel that falls inside the target replaces the pixel there. *)
Definition drawImage (img : QImage) (x y : Z) (src : QImage) : QImage :=
  mkImage (iw img) (ih img)
    (fun x' y' =>
       if in_image img x' y' && in_image src (x' - x) (y' - y)
       then ipx src (x' - x) (y' - y) else ipx img x' y').

(** ** What the client does, as seen from outside *)

Inductive signal :=
| connectionStateChanged (connected : bool)
| protocolVersionChanged_sig (v : ProtocolVersion)
| securityTypeChanged_sig (t : Z)
| framebufferSizeChanged (w h : Z)
| imageChanged (x y w h : Z).

(** The [qCWarning] messages of the engine and the [qWarning] of
    [QImage::setPixel]. *)
Inductive warning :=
| W_TightControlTimeout
| W_JpegLengthTimeout
| W_TightReadFailed
| W_TightDecompressFailed
| W_JpegReadFailed
| W_JpegDecodeFailed
| W_ZlibInflateFailed (code : Z)
| W_UnsupportedProtocolVersion (value : list Z)
| W_SecurityNotSupported (t : Z)
| W_SecurityFailureReason (text : list Z)
| W_UnknownMessageType (t : Z)
| W_UnsupportedEncoding (e : Z)
| W_BppNotSupported (bpp : Z)
| W_ZrleTimeout
| W_ZrleDecompressFailed
| W_ZrleTruncatedSubencoding
| W_ZrleTruncatedRaw
| W_ZrleTruncatedSolid
| W_ZrleTruncatedPaletteSize
| W_ZrleTruncatedPaletteColors
| W_ZrleTruncatedPacked
| W_ZrleRlePalette
| W_ZrlePlainRle
| W_SetPixelOutOfRange (x y : Z)
| W_DeviceNotOpen.

Inductive action :=
| Emit (s : signal)
| Write (bytes : list Z)
| Warn (w : warning).

(** Bytes put on the socket, in order. *)
Fixpoint sent (tr : list action) : list Z :=
  match tr with
  | [] => []
  | Write bs :: tr' => bs ++ sent tr'
  | _ :: tr' => sent tr'
  end.

(** The individual [write] calls, in order. *)
Fixpoint writes (tr : list action) : list (list Z) :=
  match tr with
  | [] => []
  | Write bs :: tr' => bs :: writes tr'
  | _ :: tr' => writes tr'
  end.

(** Signals emitted, in order. *)
Fixpoint emits (tr : list action) : list signal :=
  match tr with
  | [] => []
  | Emit e :: tr' => e :: emits tr'
  | _ :: tr' => emits tr'
  end.

Fixpoint warnings (tr : list action) : list warning :=
  match tr with
  | [] => []
  | Warn w :: tr' => w :: warnings tr'
  | _ :: tr' => warnings tr'
  end.

(** ** External decoders

    zlib and the JPEG reader are libraries the engine calls; the
    embedding takes them as an interface.  [inflate z input avail_out]
    is one call [inflate(&z, Z_SYNC_FLUSH)] with the whole input and
    [avail_out] bytes of room: it gives the stream afterwards, the bytes
    produced and zlib's return code.  [qUncompress] is Qt's one-shot
    function of the whole byte array (empty on failure).  [loadFromData]
    is [QImage::loadFromData(data, "JPEG")]. *)
Class Codecs := {
  z_stream : Type;
  inflateInit : z_stream;
  inflate : z_stream -> list Z -> Z -> z_stream * list Z * Z;
  qUncompress : list Z -> list Z;
  loadFromData : list Z -> option QImage
}.

Definition Z_OK : Z := 0.
Definition Z_STREAM_END : Z := 1.

(** ** Engine state and the monad of member functions *)

(** How a member function can end: normally, stuck for ever in a
    [while (...) waitForReadyRead()] loop on a socket that delivers
    nothing more, or by using an object that was never assigned (a short
    read into an uninitialised local, an out-of-bounds buffer index, a
    signed overflow), for which C++ defines no behaviour. *)
Inductive result (A : Type) : Type :=
| Ok (a : A)
| Blocked
| Undef.
Arguments Blocked {A}.
Arguments Undef {A}.

Inductive ctl := Next | Return.

Section Engine.

Context {C : Codecs}.

(** The data members of [QVncClient::Private], the socket's read buffer
    [st_avail] together with the chunks [st_pending] that successive
    [waitForReadyRead] calls will deliver, and the trace.  [st_wire] is a
    history variable: the rectangle headers taken off the wire by
    [framebufferUpdate], in order; no code reads it. *)
Record state := mkState {
  st_state : HandshakingState;
  st_pixelFormat : PixelFormat;
  st_avail : list Z;
  st_pending : list (list Z);
  st_zlibStream : Z -> z_stream;
  st_zlibStreamActive : Z -> bool;
  st_protocolVersion : ProtocolVersion;
  st_securityType : Z;
  st_image : QImage;
  st_frameBufferWidth : Z;
  st_frameBufferHeight : Z;
  st_trace : list action;
  st_wire : list (Rectangle * Z)
}.

Definition set_state (v : HandshakingState) (s : state) : state :=
  mkState v (st_pixelFormat s) (st_avail s) (st_pending s) (st_zlibStream s)
    (st_zlibStreamActive s) (st_protocolVersion s) (st_securityType s)
    (st_image s) (st_frameBufferWidth s) (st_frameBufferHeight s)
    (st_trace s) (st_wire s).

Definition set_pixelFormat (v : PixelFormat) (s : state) : state :=
  mkState (st_state s) v (st_avail s) (st_pending s) (st_zlibStream s)
    (st_zlibStreamActive s) (st_protocolVersion s) (st_securityType s)
    (st_image s) (st_frameBufferWidth s) (st_frameBufferHeight s)
    (st_trace s) (st_wire s).

Definition set_sock (a : list Z) (p : list (list Z)) (s : state) : state :=
  mkState (st_state s) (st_pixelFormat s) a p (st_zlibStream s)
    (st_zlibStreamActive s) (st_protocolVersion s) (st_securityType s)
    (st_image s) (st_frameBufferWidth s) (st_frameBufferHeight s)
    (st_trace s) (st_wire s).

Definition set_zlib (z : Z -> z_stream) (a : Z -> bool) (s : state) : state :=
  mkState (st_state s) (st_pixelFormat s) (st_avail s) (st_pending s) z a
    (st_protocolVersion s) (st_securityType s)
    (st_image s) (st_frameBufferWidth s) (st_frameBufferHeight s)
    (st_trace s) (st_wire s).

Definition set_protocolVersion (v : ProtocolVersion) (s : state) : state :=
  mkState (st_state s) (st_pixelFormat s) (st_avail s) (st_pending s)
    (st_zlibStream s) (st_zlibStreamActive s) v (st_securityType s)
    (st_image s) (st_frameBufferWidth s) (st_frameBufferHeight s)
    (st_trace s) (st_wire s).

Definition set_securityType (v : Z) (s : state) : state :=
  mkState (st_state s) (st_pixelFormat s) (st_avail s) (st_pending s)
    (st_zlibStream s) (st_zlibStreamActive s) (st_protocolVersion s) v
    (st_image s) (st_frameBufferWidth s) (st_frameBufferHeight s)
    (st_trace s) (st_wire s).

Definition set_image (v : QImage) (s : state) : state :=
  mkState (st_state s) (st_pixelFormat s) (st_avail s) (st_pending s)
    (st_zlibStream s) (st_zlibStreamActive s) (st_protocolVersion s)
    (st_securityType s) v (st_frameBufferWidth s) (st_frameBufferHeight s)
    (st_trace s) (st_wire s).

Definition set_frameBufferSize (w h : Z) (s : state) : state :=
  mkState (st_state s) (st_pixelFormat s) (st_avail s) (st_pending s)
    (st_zlibStream s) (st_zlibStreamActive s) (st_protocolVersion s)
    (st_securityType s) (st_image s) w h (st_trace s) (st_wire s).

Definition add_trace (d : list action) (s : state) : state :=
  mkState (st_state s) (st_pixelFormat s) (st_avail s) (st_pending s)
    (st_zlibStream s) (st_zlibStreamActive s) (st_protocolVersion s)
    (st_securityType s) (st_image s) (st_frameBufferWidth s)
    (st_frameBufferHeight s) (st_trace s ++ d) (st_wire s).

Definition add_wire (r : Rectangle) (e : Z) (s : state) : state :=
  mkState (st_state s) (st_pixelFormat s) (st_avail s) (st_pending s)
    (st_zlibStream s) (st_zlibStreamActive s) (st_protocolVersion s)
    (st_securityType s) (st_image s) (st_frameBufferWidth s)
    (st_frameBufferHeight s) (st_trace s) (st_wire s ++ [(r, e)]).

Definition M (A : Type) : Type := state -> result (A * state).

Definition ret {A} (a : A) : M A := fun s => Ok (a, s).

Definition bind {A B} (m : M A) (f : A -> M B) : M B :=
  fun s =>
    match m s with
    | Ok (a, s') => f a s'
    | Blocked => Blocked
    | Undef => Undef
    end.

Definition undef {A} : M A := fun _ => Undef.

Notation "x <- m ;; k" := (bind m (fun x => k))
  (at level 61, m at next level, right associativity).
Notation "m ;;; k" := (bind m (fun _ => k))
  (at level 61, right associativity).

Definition get {A} (f : state -> A) : M A := fun s => Ok (f s, s).
Definition modify (f : state -> state) : M unit := fun s => Ok (tt, f s).

(** [for (i = start; ...; i += step)] running [n] times; the body says
    whether the enclosing function goes on or returns. *)
Fixpoint for_ (n : nat) (i step : Z) (body : Z -> M ctl) : M ctl :=
  match n with
  | O => ret Next
  | S n' =>
      c <- body i ;;
      match c with
      | Return => ret Return
      | Next => for_ n' (i + step) step body
      end
  end.

(** Number of iterations of [for (i = 0; i < hi; i += step)]. *)
Definition trips (hi step : Z) : nat := Z.to_nat ((hi + step - 1) / step).

(** *** Socket *)

Definition bytesAvailable : M Z := get (fun s => lenZ (st_avail s)).

(** [socket->read(maxlen)] and [socket->read(buf, maxlen)]: whatever is
    buffered, up to [maxlen] bytes. *)
Definition socket_read (maxlen : Z) : M (list Z) :=
  fun s => Ok (takeZ maxlen (st_avail s),
               set_sock (dropZ maxlen (st_avail s)) (st_pending s) s).

(** The template [read(T *out)] into a local that has no initialiser:
    with fewer than [sizeof(T)] bytes buffered part of the object stays
    unassigned. *)
Definition read_T (size : Z) : M (list Z) :=
  fun s =>
    if size <=? lenZ (st_avail s)
    then Ok (takeZ size (st_avail s),
             set_sock (dropZ size (st_avail s)) (st_pending s) s)
    else Undef.

(** One byte read into a [quint8] local initialised to [init]. *)
Definition read_u8_init (init : Z) : M Z :=
  fun s =>
    match st_avail s with
    | b :: rest => Ok (b, set_sock rest (st_pending s) s)
    | [] => Ok (init, s)
    end.

(** [socket->waitForReadyRead(msecs)]: the next chunk arrives, or the
    wait times out. *)
Definition waitForReadyRead : M bool :=
  fun s =>
    match st_pending s with
    | [] => Ok (false, s)
    | c :: rest => Ok (true, set_sock (st_avail s ++ c) rest s)
    end.

(** [while (socket->bytesAvailable() < n) socket->waitForReadyRead();] *)
Fixpoint wait_loop (n : Z) (avail : list Z) (pending : list (list Z))
  : option (list Z * list (list Z)) :=
  if lenZ avail <? n then
    match pending with
    | [] => None
    | c :: rest => wait_loop n (avail ++ c) rest
    end
  else Some (avail, pending).

Definition wait_for_bytes (n : Z) : M unit :=
  fun s =>
    match wait_loop n (st_avail s) (st_pending s) with
    | Some (a, p) => Ok (tt, set_sock a p s)
    | None => Blocked
    end.

Definition write (bytes : list Z) : M unit := modify (add_trace [Write bytes]).
Definition emit (e : signal) : M unit := modify (add_trace [Emit e]).
Definition qCWarning (w : warning) : M unit := modify (add_trace [Warn w]).

(** [image.setPixel(x, y, rgb)]: out of range, [QImage] prints a warning
    and stores nothing. *)
Definition setPixel (x y c : Z) : M unit :=
  fun s =>
    if in_image (st_image s) x y
    then Ok (tt, set_image (put_pixel (st_image s) x y c) s)
    else Ok (tt, add_trace [Warn (W_SetPixelOutOfRange x y)] s).

(** Arithmetic in [int]: a product beyond [INT_MAX] has no defined
    value. *)
Definition int_checked (v : Z) : M Z :=
  if v <=? 2147483647 then ret v else undef.

(** ** Client to server messages *)

(** [framebufferUpdateRequest(bool incremental = true,
                              const QRect &rect = QRect())] *)
Definition framebufferUpdateRequest (incremental : bool)
    (rect : option Rectangle) : M unit :=
  write [FramebufferUpdateRequest] ;;;
  write [if incremental then 1 else 0] ;;;
  w <- get st_frameBufferWidth ;;
  h <- get st_frameBufferHeight ;;
  let rectangle :=
    match rect with
    | Some r =>
        if (rw r <=? 0) || (rh r <=? 0) then mkRect 0 0 w h else r
    | None => mkRect 0 0 w h
    end in
  write (Rectangle_to_bytes rectangle).

(** [setPixelFormat()] *)
Definition setPixelFormat : M unit :=
  write [SetPixelFormat] ;;;
  write [32; 32; 32] ;;;
  pf <- get st_pixelFormat ;;
  write (PixelFormat_to_bytes pf).

(** [setEncodings(encodings)] *)
Fixpoint write_encodings (encodings : list Z) : M unit :=
  match encodings with
  | [] => ret tt
  | e :: rest => write (be32 e) ;;; write_encodings rest
  end.

Definition setEncodings (encodings : list Z) : M unit :=
  write [SetEncodings] ;;;
  write [32] ;;;
  write (be16 (lenZ encodings)) ;;;
  write_encodings encodings.

(** ** Handshaking messages *)

Definition RFB_003_003 : list Z := [82; 70; 66; 32; 48; 48; 51; 46; 48; 48; 51; 10].
Definition RFB_003_007 : list Z := [82; 70; 66; 32; 48; 48; 51; 46; 48; 48; 55; 10].
Definition RFB_003_008 : list Z := [82; 70; 66; 32; 48; 48; 51; 46; 48; 48; 56; 10].

Fixpoint bytes_eqb (a b : list Z) : bool :=
  match a, b with
  | [], [] => true
  | x :: a', y :: b' => (x =? y) && bytes_eqb a' b'
  | _, _ => false
  end.

(** The slot [Private::protocolVersionChanged]. *)
Definition protocolVersionChanged (protocolVersion : ProtocolVersion) : M unit :=
  match protocolVersion with
  | ProtocolVersion33 =>
      write RFB_003_003 ;;; modify (set_state SecurityState)
  | ProtocolVersion37 =>
      write RFB_003_007 ;;; modify (set_state SecurityState)
  | ProtocolVersion38 =>
      write RFB_003_008 ;;; modify (set_state SecurityState)
  | ProtocolVersionUnknown => ret tt
  end.

(** [QVncClient::setProtocolVersion]; the signal reaches the slot above
    through the connection made in the constructor. *)
Definition setProtocolVersion (protocolVersion : ProtocolVersion) : M unit :=
  cur <- get st_protocolVersion ;;
  if ProtocolVersion_eqb cur protocolVersion then ret tt
  else
    modify (set_protocolVersion protocolVersion) ;;;
    emit (protocolVersionChanged_sig protocolVersion) ;;;
    protocolVersionChanged protocolVersion.

(** [parseProtocolVersion()] *)
Definition parseProtocolVersion : M unit :=
  n <- bytesAvailable ;;
  if n <? 12 then ret tt
  else
    value <- socket_read 12 ;;
    if bytes_eqb value RFB_003_003 then setProtocolVersion ProtocolVersion33
    else if bytes_eqb value RFB_003_007 then setProtocolVersion ProtocolVersion33
    else if bytes_eqb value RFB_003_008 then setProtocolVersion ProtocolVersion33
    else qCWarning (W_UnsupportedProtocolVersion value).

(** [clientInit()] *)
Definition clientInit : M unit :=
  write [1] ;;; modify (set_state ServerInitState).

(** [parseSecurityReason()] *)
Definition parseSecurityReason : M unit :=
  n <- bytesAvailable ;;
  if n <? 4 then ret tt
  else
    bs <- read_T 4 ;;
    let reasonLength := of_be32 bs in
    n' <- bytesAvailable ;;
    if n' <? reasonLength then ret tt
    else
      text <- socket_read reasonLength ;;
      qCWarning (W_SecurityFailureReason text).

(** The slot [Private::securityTypeChanged]. *)
Definition securityTypeChanged (securityType : Z) : M unit :=
  if securityType =? SecurityTypeUnknwon then ret tt
  else if securityType =? SecurityTypeInvalid then parseSecurityReason
  else if securityType =? SecurityTypeNone then
    v <- get st_protocolVersion ;;
    match v with
    | ProtocolVersion33 =>
        modify (set_state ClientInitState) ;;; clientInit
    | ProtocolVersion37 =>
        modify (set_state ClientInitState) ;;;
        write [wrap8 securityType] ;;; clientInit
    | ProtocolVersion38 =>
        write [wrap8 securityType] ;;; modify (set_state SecurityResultState)
    | ProtocolVersionUnknown => ret tt
    end
  else qCWarning (W_SecurityNotSupported securityType).

(** [QVncClient::setSecurityType] *)
Definition setSecurityType (securityType : Z) : M unit :=
  cur <- get st_securityType ;;
  if cur =? securityType then ret tt
  else
    modify (set_securityType securityType) ;;;
    emit (securityTypeChanged_sig securityType) ;;;
    securityTypeChanged securityType.

(** [parseSecurity33()] *)
Definition parseSecurity33 : M unit :=
  n <- bytesAvailable ;;
  if n <? 4 then ret tt
  else
    bs <- read_T 4 ;;
    setSecurityType (to_int8 (of_be32 bs)).

(** [parseSecurity37()] *)
Fixpoint read_security_types (n : nat) (acc : list Z) : M (list Z) :=
  match n with
  | O => ret acc
  | S n' =>
      securityType <- read_u8_init 0 ;;
      read_security_types n' (acc ++ [securityType])
  end.

Definition parseSecurity37 : M unit :=
  n <- bytesAvailable ;;
  if n <? 1 then ret tt
  else
    numberOfSecurityTypes <- read_u8_init 0 ;;
    if numberOfSecurityTypes =? 0 then parseSecurityReason
    else
      n' <- bytesAvailable ;;
      if n' <? numberOfSecurityTypes then ret tt
      else
        securityTypes <- read_security_types (Z.to_nat numberOfSecurityTypes) [] ;;
        if existsb (Z.eqb SecurityTypeNone) securityTypes
        then setSecurityType SecurityTypeNone
        else setSecurityType SecurityTypeInvalid.

(** [parseSecurity()] *)
Definition parseSecurity : M unit :=
  v <- get st_protocolVersion ;;
  match v with
  | ProtocolVersion33 => parseSecurity33
  | ProtocolVersion37 | ProtocolVersion38 => parseSecurity37
  | ProtocolVersionUnknown => ret tt
  end.

(** ** Initialisation messages *)

(** [parserServerInit()] *)
Definition parserServerInit : M unit :=
  n <- bytesAvailable ;;
  if n <? 2 + 2 + 16 + 4 then ret tt
  else
    wb <- read_T 2 ;;
    hb <- read_T 2 ;;
    let framebufferWidth := of_be16 wb in
    let framebufferHeight := of_be16 hb in
    modify (set_frameBufferSize framebufferWidth framebufferHeight) ;;;
    emit (framebufferSizeChanged framebufferWidth framebufferHeight) ;;;
    modify (set_image (QImage_new_white framebufferWidth framebufferHeight)) ;;;
    pfb <- read_T 16 ;;
    modify (set_pixelFormat (PixelFormat_of_bytes pfb)) ;;;
    nb <- read_T 4 ;;
    let nameLength := of_be32 nb in
    n' <- bytesAvailable ;;
    if n' <? nameLength then ret tt
    else
      nameString <- socket_read nameLength ;;
      modify (set_state WaitingState) ;;;
      setPixelFormat ;;;
      setEncodings [Tight; ZRLE; Hextile; RawEncoding] ;;;
      framebufferUpdateRequest false None.

(** ** Server to client messages: the rectangle decoders *)

Fixpoint for_acc {A} (n : nat) (i step : Z) (body : Z -> A -> M (ctl * A))
    (a : A) : M (ctl * A) :=
  match n with
  | O => ret (Next, a)
  | S n' =>
      r <- body i a ;;
      match fst r with
      | Return => ret r
      | Next => for_acc n' (i + step) step body (snd r)
      end
  end.

(** Indexing a decompressed buffer; outside its bounds the read has no
    defined value. *)
Definition buf_bytes (data : list Z) (off n : Z) : M (list Z) :=
  if (0 <=? off) && (off + n <=? lenZ data)
  then ret (takeZ n (dropZ off data)) else undef.

Definition buf_u8 (data : list Z) (off : Z) : M Z :=
  bs <- buf_bytes data off 1 ;; ret (nthb bs 0).

(** *** Raw *)

(** The body of the two pixel loops of [handleRawEncoding]: the
    [switch (pixelFormat.bitsPerPixel)]. *)
Definition raw_pixel (rect : Rectangle) (pf : PixelFormat) (y x : Z) : M ctl :=
  if bitsPerPixel pf =? 32 then
    bs <- read_T 4 ;;
    let color := of_le32 bs in
    setPixel (rx rect + x) (ry rect + y) (rgb_of pf color) ;;;
    ret Next
  else
    qCWarning (W_BppNotSupported (bitsPerPixel pf)) ;;;
    ret Return.

Definition raw_row (rect : Rectangle) (pf : PixelFormat) (y : Z) : M ctl :=
  c <- for_ (Z.to_nat (rw rect)) 0 1 (raw_pixel rect pf y) ;;
  match c with
  | Return => ret Return
  | Next =>
      emit (imageChanged (rx rect) (ry rect) (rw rect) (rh rect)) ;;;
      ret Next
  end.

(** [handleRawEncoding(rect)] *)
Definition handleRawEncoding (rect : Rectangle) : M unit :=
  pf <- get st_pixelFormat ;;
  bits <- int_checked (rw rect * rh rect * bitsPerPixel pf) ;;
  wait_for_bytes (bits / 8) ;;;
  c <- for_ (Z.to_nat (rh rect)) 0 1 (raw_row rect pf) ;;
  match c with
  | Return => ret tt
  | Next => framebufferUpdateRequest true None
  end.

(** *** Hextile *)

Definition flag (v mask : Z) : bool := negb (Z.land v mask =? 0).

(** [if (pixelFormat.bitsPerPixel == 32) { quint32_le c; read(&c); v = c; }] *)
Definition hextile_color (pf : PixelFormat) (old : Z) : M Z :=
  if bitsPerPixel pf =? 32 then bs <- read_T 4 ;; ret (of_le32 bs)
  else ret old.

Definition hextile_raw_tile (rect : Rectangle) (pf : PixelFormat)
    (ty th tx tw : Z) : M ctl :=
  for_ (Z.to_nat th) 0 1 (fun y =>
    for_ (Z.to_nat tw) 0 1 (fun x =>
      if bitsPerPixel pf =? 32 then
        bs <- read_T 4 ;;
        setPixel (rx rect + tx + x) (ry rect + ty + y) (rgb_of pf (of_le32 bs)) ;;;
        ret Next
      else ret Next)).

Definition fill_block (pf : PixelFormat) (x0 y0 : Z) (nw nh : nat) (color : Z)
  : M ctl :=
  for_ nh 0 1 (fun y =>
    for_ nw 0 1 (fun x =>
      setPixel (x0 + x) (y0 + y) (rgb_of pf color) ;;; ret Next)).

Definition hextile_subrect (rect : Rectangle) (pf : PixelFormat)
    (ty th tx tw subencoding foregroundColor : Z) : M ctl :=
  color <- (if flag subencoding SubrectsColoured
            then hextile_color pf foregroundColor
            else ret foregroundColor) ;;
  xyb <- read_T 1 ;;
  whb <- read_T 1 ;;
  let xy := nthb xyb 0 in
  let wh := nthb whb 0 in
  let sx := Z.land (Z.shiftr xy 4) 15 in
  let sy := Z.land xy 15 in
  let sw := Z.land (Z.shiftr wh 4) 15 + 1 in
  let sh := Z.land wh 15 + 1 in
  fill_block pf (rx rect + tx + sx) (ry rect + ty + sy)
    (Z.to_nat (Z.min sw (tw - sx))) (Z.to_nat (Z.min sh (th - sy))) color.

(** One tile; the pair carried along is
    [(backgroundColor, foregroundColor)]. *)
Definition hextile_tile (rect : Rectangle) (pf : PixelFormat)
    (ty th tx tw : Z) (colors : Z * Z) : M (ctl * (Z * Z)) :=
  sb <- read_T 1 ;;
  let subencoding := nthb sb 0 in
  if flag subencoding RawSubencoding then
    hextile_raw_tile rect pf ty th tx tw ;;;
    ret (Next, colors)
  else
    backgroundColor <-
      (if flag subencoding BackgroundSpecified
       then hextile_color pf (fst colors) else ret (fst colors)) ;;
    fill_block pf (rx rect + tx) (ry rect + ty) (Z.to_nat tw) (Z.to_nat th)
      backgroundColor ;;;
    if flag subencoding AnySubrects then
      foregroundColor <-
        (if flag subencoding ForegroundSpecified
         then hextile_color pf (snd colors) else ret (snd colors)) ;;
      nb <- read_T 1 ;;
      let numSubrects := nthb nb 0 in
      for_ (Z.to_nat numSubrects) 0 1 (fun _ =>
        hextile_subrect rect pf ty th tx tw subencoding foregroundColor) ;;;
      ret (Next, (backgroundColor, foregroundColor))
    else ret (Next, (backgroundColor, snd colors)).

(** [handleHextileEncoding(rect)] *)
Definition handleHextileEncoding (rect : Rectangle) : M unit :=
  pf <- get st_pixelFormat ;;
  let tileWidth := 16 in
  let tileHeight := 16 in
  for_acc (trips (rh rect) tileHeight) 0 tileHeight (fun ty colors =>
    let th := Z.min tileHeight (rh rect - ty) in
    for_acc (trips (rw rect) tileWidth) 0 tileWidth (fun tx colors =>
      let tw := Z.min tileWidth (rw rect - tx) in
      hextile_tile rect pf ty th tx tw colors) colors) (0, 0) ;;;
  ret tt.

(** *** ZRLE *)

(** The wait for the compressed block: gives up, with a warning, when a
    wait times out. *)
Fixpoint zrle_wait_loop (n : Z) (avail : list Z) (pending : list (list Z))
  : list Z * list (list Z) * bool :=
  if lenZ avail <? n then
    match pending with
    | [] => (avail, [], true)
    | c :: rest => zrle_wait_loop n (avail ++ c) rest
    end
  else (avail, pending, false).

Definition zrle_wait (n : Z) : M unit :=
  fun s =>
    match zrle_wait_loop n (st_avail s) (st_pending s) with
    | (a, p, timedOut) =>
        let s' := set_sock a p s in
        if timedOut then qCWarning W_ZrleTimeout s' else Ok (tt, s')
    end.

(** One pixel of a raw tile: the value and the advance of [dataOffset]. *)
Definition zrle_raw_color (data : list Z) (bytesPerPixel dataOffset : Z)
  : M (Z * Z) :=
  if bytesPerPixel =? 4 then
    bs <- buf_bytes data dataOffset 4 ;; ret (of_le32 bs, dataOffset + 4)
  else if bytesPerPixel =? 3 then
    bs <- buf_bytes data dataOffset 3 ;;
    ret (Z.lor (Z.lor (nthb bs 0) (Z.shiftl (nthb bs 1) 8))
               (Z.shiftl (nthb bs 2) 16), dataOffset + 3)
  else if bytesPerPixel =? 2 then
    bs <- buf_bytes data dataOffset 2 ;; ret (of_le16 bs, dataOffset + 2)
  else if bytesPerPixel =? 1 then
    b <- buf_u8 data dataOffset ;; ret (b, dataOffset + 1)
  else ret (0, dataOffset).

Definition zrle_raw_tile (rect : Rectangle) (pf : PixelFormat) (data : list Z)
    (ty th tx tw dataOffset : Z) : M (ctl * Z) :=
  let bytesPerPixel := bitsPerPixel pf / 8 in
  for_acc (Z.to_nat th) 0 1 (fun y off =>
    for_acc (Z.to_nat tw) 0 1 (fun x off =>
      co <- zrle_raw_color data bytesPerPixel off ;;
      setPixel (rx rect + tx + x) (ry rect + ty + y) (rgb_of pf (fst co)) ;;;
      ret (Next, snd co)) off) dataOffset.

(** The palette of [paletteSize] colours starting at [dataOffset]; the
    caller has checked that they lie inside the buffer. *)
Definition zrle_palette (pf : PixelFormat) (data : list Z)
    (dataOffset : Z) (paletteSize : Z) : list Z :=
  map (fun i => rgb_of pf (of_le32 (takeZ 4 (dropZ (dataOffset + 4 * Z.of_nat i) data))))
      (seq 0 (Z.to_nat paletteSize)).

(** One packed index; the pair carried along is [(byteOffset, bitOffset)]. *)
Definition zrle_packed_index (data : list Z) (dataOffset bitsPerPaletteEntry : Z)
    (pos : Z * Z) : M (Z * (Z * Z)) :=
  let '(byteOffset, bitOffset) := pos in
  if bitsPerPaletteEntry =? 1 then
    byte <- buf_u8 data (dataOffset + byteOffset) ;;
    let index := Z.land (Z.shiftr byte (7 - bitOffset)) 1 in
    let bitOffset := bitOffset + 1 in
    if bitOffset =? 8 then ret (index, (byteOffset + 1, 0))
    else ret (index, (byteOffset, bitOffset))
  else if bitsPerPaletteEntry =? 2 then
    byte <- buf_u8 data (dataOffset + byteOffset) ;;
    let index := Z.land (Z.shiftr byte (6 - bitOffset)) 3 in
    let bitOffset := bitOffset + 2 in
    if bitOffset =? 8 then ret (index, (byteOffset + 1, 0))
    else ret (index, (byteOffset, bitOffset))
  else if bitsPerPaletteEntry =? 4 then
    byte <- buf_u8 data (dataOffset + byteOffset) ;;
    let index := Z.land (Z.shiftr byte (4 - bitOffset)) 15 in
    let bitOffset := bitOffset + 4 in
    if bitOffset =? 8 then ret (index, (byteOffset + 1, 0))
    else ret (index, (byteOffset, bitOffset))
  else
    byte <- buf_u8 data (dataOffset + byteOffset) ;;
    ret (Z.land byte 127, (byteOffset + 1, bitOffset)).

Definition zrle_packed_rows (rect : Rectangle) (data palette : list Z)
    (ty th tx tw dataOffset paletteSize bits : Z) : M (ctl * Z) :=
  for_acc (Z.to_nat th) 0 1 (fun y byteOffset =>
    r <- for_acc (Z.to_nat tw) 0 1 (fun x pos =>
           ip <- zrle_packed_index data dataOffset bits pos ;;
           (if fst ip <? paletteSize
            then setPixel (rx rect + tx + x) (ry rect + ty + y)
                          (nth (Z.to_nat (fst ip)) palette 0)
            else ret tt) ;;;
           ret (Next, snd ip)) (byteOffset, 0) ;;
    let '(byteOffset, bitOffset) := snd r in
    if (bits <? 8) && (0 <? bitOffset) then ret (Next, byteOffset + 1)
    else ret (Next, byteOffset)) 0.

Definition zrle_packed_tile (rect : Rectangle) (pf : PixelFormat) (data : list Z)
    (ty th tx tw dataOffset : Z) : M (ctl * Z) :=
  if dataOffset >=? lenZ data then
    qCWarning W_ZrleTruncatedPaletteSize ;;; ret (Next, dataOffset)
  else
    paletteSize <- buf_u8 data dataOffset ;;
    let dataOffset := dataOffset + 1 in
    if (paletteSize =? 0) || (dataOffset + paletteSize * 4 >? lenZ data) then
      qCWarning W_ZrleTruncatedPaletteColors ;;; ret (Next, dataOffset)
    else
      let palette := zrle_palette pf data dataOffset paletteSize in
      let dataOffset := dataOffset + 4 * paletteSize in
      let bitsPerPaletteEntry :=
        if paletteSize <=? 2 then 1
        else if paletteSize <=? 4 then 2
        else if paletteSize <=? 16 then 4
        else 8 in
      let bytesPerLine := (tw * bitsPerPaletteEntry + 7) / 8 in
      let totalBytes := bytesPerLine * th in
      if dataOffset + totalBytes >? lenZ data then
        qCWarning W_ZrleTruncatedPacked ;;; ret (Next, dataOffset)
      else
        zrle_packed_rows rect data palette ty th tx tw dataOffset paletteSize
          bitsPerPaletteEntry ;;;
        ret (Next, dataOffset + totalBytes).

(** One 64x64 tile; [dataOffset] is carried along. *)
Definition zrle_tile (rect : Rectangle) (pf : PixelFormat) (data : list Z)
    (ty th tx tw dataOffset : Z) : M (ctl * Z) :=
  let bytesPerPixel := bitsPerPixel pf / 8 in
  if dataOffset >=? lenZ data then
    qCWarning W_ZrleTruncatedSubencoding ;;; ret (Return, dataOffset)
  else
    subencoding <- buf_u8 data dataOffset ;;
    let dataOffset := dataOffset + 1 in
    if subencoding =? 0 then
      let expectedBytes := tw * th * 4 in
      if dataOffset + expectedBytes >? lenZ data then
        qCWarning W_ZrleTruncatedRaw ;;; ret (Next, dataOffset)
      else zrle_raw_tile rect pf data ty th tx tw dataOffset
    else if subencoding =? 1 then
      if dataOffset + bytesPerPixel >? lenZ data then
        qCWarning W_ZrleTruncatedSolid ;;; ret (Next, dataOffset)
      else
        bs <- buf_bytes data dataOffset 4 ;;
        fill_block pf (rx rect + tx) (ry rect + ty) (Z.to_nat tw) (Z.to_nat th)
          (of_le32 bs) ;;;
        ret (Next, dataOffset + 4)
    else if subencoding =? 2 then
      zrle_packed_tile rect pf data ty th tx tw dataOffset
    else if subencoding =? 3 then
      qCWarning W_ZrleRlePalette ;;; ret (Next, dataOffset)
    else
      qCWarning W_ZrlePlainRle ;;; ret (Next, dataOffset).

(** The tile loops of [handleZRLEEncoding] over the decompressed data. *)
Definition zrle_tiles (rect : Rectangle) (uncompressedData : list Z) : M unit :=
  pf <- get st_pixelFormat ;;
  let tileWidth := 64 in
  let tileHeight := 64 in
  for_acc (trips (rh rect) tileHeight) 0 tileHeight (fun ty dataOffset =>
    let th := Z.min tileHeight (rh rect - ty) in
    for_acc (trips (rw rect) tileWidth) 0 tileWidth (fun tx dataOffset =>
      let tw := Z.min tileWidth (rw rect - tx) in
      zrle_tile rect pf uncompressedData ty th tx tw dataOffset) dataOffset) 0 ;;;
  ret tt.

(** What [handleZRLEEncoding] does with the result of [qUncompress]. *)
Definition zrle_decoded (rect : Rectangle) (uncompressedData : list Z) : M unit :=
  match uncompressedData with
  | [] =>
      qCWarning W_ZrleDecompressFailed ;;;
      framebufferUpdateRequest true None
  | _ :: _ => zrle_tiles rect uncompressedData
  end.

(** [handleZRLEEncoding(rect)] *)
Definition handleZRLEEncoding (rect : Rectangle) : M unit :=
  n <- bytesAvailable ;;
  if n <? 4 then ret tt
  else
    lb <- read_T 4 ;;
    let zlibDataLength := of_be32 lb in
    if zlibDataLength =? 0 then ret tt
    else
      zrle_wait zlibDataLength ;;;
      compressedData <- socket_read zlibDataLength ;;
      let uncompressedData := qUncompress compressedData in
      zrle_decoded rect uncompressedData.

(** *** Tight *)

(** The loop that collects [length] bytes, shared in shape by
    [handleTightEncoding] and [handleTightJpeg]; [None] is the
    [bytesRead <= 0] exit.  Every turn that goes on has read at least one
    byte, so [length] turns are enough. *)
Fixpoint read_loop (fuel : nat) (length totalRead : Z) (buf : list Z)
  : M (option (list Z)) :=
  match fuel with
  | O => ret (Some buf)
  | S fuel' =>
      if totalRead <? length then
        n <- bytesAvailable ;;
        (if (n <? 1) && (totalRead <? length)
         then waitForReadyRead ;;; ret tt else ret tt) ;;;
        chunk <- socket_read (length - totalRead) ;;
        let bytesRead := lenZ chunk in
        if bytesRead <=? 0 then ret None
        else read_loop fuel' length (totalRead + bytesRead) (buf ++ chunk)
      else ret (Some buf)
  end.

Definition read_payload (length : Z) : M (option (list Z)) :=
  read_loop (Z.to_nat length) length 0 [].

(** [handleTightJpeg(rect, dataLength)] *)
Definition handleTightJpeg (rect : Rectangle) (dataLength : Z) : M bool :=
  r <- read_payload dataLength ;;
  match r with
  | None => qCWarning W_JpegReadFailed ;;; ret false
  | Some jpegData =>
      match loadFromData jpegData with
      | None => qCWarning W_JpegDecodeFailed ;;; ret false
      | Some jpegImage =>
          img <- get st_image ;;
          modify (set_image (drawImage img (rx rect) (ry rect) jpegImage)) ;;;
          ret true
      end
  end.

Definition upd {A} (f : Z -> A) (k : Z) (v : A) : Z -> A :=
  fun i => if i =? k then v else f i.

(** [decompressTightData(streamId, data, expectedBytes)]; at most
    [avail_out = expectedBytes] bytes come out. *)
Definition decompressTightData (streamId : Z) (data : list Z)
    (expectedBytes : Z) : M (list Z) :=
  zs <- get st_zlibStream ;;
  act <- get st_zlibStreamActive ;;
  let '(z', out, result) := inflate (zs streamId) data expectedBytes in
  modify (set_zlib (upd zs streamId z') act) ;;;
  if negb (result =? Z_OK) && negb (result =? Z_STREAM_END) then
    qCWarning (W_ZlibInflateFailed result) ;;; ret []
  else ret (takeZ expectedBytes out).

(** The length field of the JPEG branch. *)
Definition tight_jpeg_length (lenByte : Z) : M Z :=
  if flag lenByte 128 then
    n <- bytesAvailable ;;
    (if n <? 2 then waitForReadyRead ;;; ret tt else ret tt) ;;;
    mb <- read_T 1 ;;
    lb <- read_T 1 ;;
    let lenMid := nthb mb 0 in
    let lenLow := nthb lb 0 in
    ret (Z.lor (Z.lor (Z.shiftl (Z.land lenByte 127) 16) (Z.shiftl lenMid 8))
               lenLow)
  else ret lenByte.

(** The length field of the zlib branch, chosen by bit 7 of the control
    byte. *)
Definition tight_basic_length (compControl : Z) : M Z :=
  if Z.land compControl 128 =? 0 then
    n <- bytesAvailable ;;
    (if n <? 1 then waitForReadyRead ;;; ret tt else ret tt) ;;;
    b <- read_T 1 ;;
    ret (nthb b 0)
  else
    n <- bytesAvailable ;;
    (if n <? 3 then waitForReadyRead ;;; ret tt else ret tt) ;;;
    hb <- read_T 1 ;;
    mb <- read_T 1 ;;
    lb <- read_T 1 ;;
    ret (Z.lor (Z.lor (Z.shiftl (nthb hb 0) 16) (Z.shiftl (nthb mb 0) 8))
               (nthb lb 0)).

(** "Reset the zlib stream if requested" and "Initialize stream if not
    active": [inflateEnd] followed by [inflateInit] leaves a fresh
    stream. *)
Definition tight_prepare_stream (resetStream : bool) (streamId : Z) : M unit :=
  act <- get st_zlibStreamActive ;;
  (if resetStream && act streamId
   then
     zs <- get st_zlibStream ;;
     modify (set_zlib zs (upd act streamId false))
   else ret tt) ;;;
  act <- get st_zlibStreamActive ;;
  if negb (act streamId)
  then
    zs <- get st_zlibStream ;;
    modify (set_zlib (upd zs streamId inflateInit) (upd act streamId true))
  else ret tt.

(** "Read pixel data according to bpp" *)
Definition tight_color (pf : PixelFormat) (data : list Z) (offset : Z) : M Z :=
  if bitsPerPixel pf =? 32 then
    bs <- buf_bytes data offset 4 ;; ret (of_le32 bs)
  else if bitsPerPixel pf =? 24 then
    bs <- buf_bytes data offset 3 ;;
    ret (Z.lor (Z.lor (nthb bs 0) (Z.shiftl (nthb bs 1) 8))
               (Z.shiftl (nthb bs 2) 16))
  else if bitsPerPixel pf =? 16 then
    bs <- buf_bytes data offset 2 ;; ret (of_le16 bs)
  else if bitsPerPixel pf =? 8 then
    buf_u8 data offset
  else ret 0.

Definition tight_pixels (rect : Rectangle) (pf : PixelFormat) (data : list Z)
  : M ctl :=
  for_ (Z.to_nat (rh rect)) 0 1 (fun y =>
    for_ (Z.to_nat (rw rect)) 0 1 (fun x =>
      let offset := (y * rw rect + x) * (bitsPerPixel pf / 8) in
      color <- tight_color pf data offset ;;
      setPixel (rx rect + x) (ry rect + y) (rgb_of pf color) ;;;
      ret Next)).

(** The zlib branch of [handleTightEncoding]. *)
Definition tight_basic (rect : Rectangle) (compControl : Z) : M unit :=
  let resetStream := flag compControl 128 in
  let streamId := Z.land compControl 3 in
  tight_prepare_stream resetStream streamId ;;;
  length <- tight_basic_length compControl ;;
  r <- read_payload length ;;
  match r with
  | None =>
      qCWarning W_TightReadFailed ;;;
      framebufferUpdateRequest true None
  | Some compressedData =>
      pf <- get st_pixelFormat ;;
      expectedBytes <- int_checked (rw rect * rh rect * (bitsPerPixel pf / 8)) ;;
      uncompressedData <- decompressTightData streamId compressedData expectedBytes ;;
      match uncompressedData with
      | [] =>
          qCWarning W_TightDecompressFailed ;;;
          framebufferUpdateRequest true None
      | _ :: _ =>
          tight_pixels rect pf uncompressedData ;;; ret tt
      end
  end.

(** The JPEG branch of [handleTightEncoding]. *)
Definition tight_jpeg (rect : Rectangle) : M unit :=
  n <- bytesAvailable ;;
  timedOut <- (if n <? 1 then ok <- waitForReadyRead ;; ret (negb ok)
               else ret false) ;;
  if timedOut then
    qCWarning W_JpegLengthTimeout ;;;
    framebufferUpdateRequest true None
  else
    lenByte <- read_u8_init 0 ;;
    length <- tight_jpeg_length lenByte ;;
    ok <- handleTightJpeg rect length ;;
    if ok then ret tt else framebufferUpdateRequest true None.

(** [handleTightEncoding(rect)] *)
Definition handleTightEncoding (rect : Rectangle) : M unit :=
  n <- bytesAvailable ;;
  timedOut <- (if n <? 1 then ok <- waitForReadyRead ;; ret (negb ok)
               else ret false) ;;
  if timedOut then
    qCWarning W_TightControlTimeout ;;;
    framebufferUpdateRequest true None
  else
    compControl <- read_u8_init 0 ;;
    if Z.land compControl 15 =? 9 then tight_jpeg rect
    else tight_basic rect compControl.

(** ** The update loop *)

(** The [switch] on the encoding type and the notification after it. *)
Definition framebufferUpdate_dispatch (rect : Rectangle) (encodingType : Z)
  : M ctl :=
  known <-
    (if encodingType =? ZRLE then handleZRLEEncoding rect ;;; ret true
     else if encodingType =? Tight then handleTightEncoding rect ;;; ret true
     else if encodingType =? Hextile then handleHextileEncoding rect ;;; ret true
     else if encodingType =? RawEncoding then handleRawEncoding rect ;;; ret true
     else qCWarning (W_UnsupportedEncoding encodingType) ;;; ret false) ;;
  if known then
    emit (imageChanged (rx rect) (ry rect) (rw rect) (rh rect)) ;;;
    ret Next
  else ret Next.

(** One turn of the rectangle loop of [framebufferUpdate]. *)
Definition framebufferUpdate_rect : M ctl :=
  n <- bytesAvailable ;;
  if n <? 12 then ret Return
  else
    rb <- read_T 8 ;;
    eb <- read_T 4 ;;
    let rect := Rectangle_of_bytes rb in
    let encodingType := to_int32 (of_be32 eb) in
    modify (add_wire rect encodingType) ;;;
    framebufferUpdate_dispatch rect encodingType.

Definition framebufferUpdate_loop (numberOfRectangles : Z) : M ctl :=
  for_ (Z.to_nat numberOfRectangles) 0 1 (fun _ => framebufferUpdate_rect).

(** [framebufferUpdate()] *)
Definition framebufferUpdate : M unit :=
  n <- bytesAvailable ;;
  if n <? 3 then ret tt
  else
    socket_read 1 ;;;
    nb <- read_T 2 ;;
    let numberOfRectangles := of_be16 nb in
    c <- framebufferUpdate_loop numberOfRectangles ;;
    match c with
    | Return => ret tt
    | Next => framebufferUpdateRequest true None
    end.

(** [parseServerMessages()] *)
Definition parseServerMessages : M unit :=
  n <- bytesAvailable ;;
  if n <? 1 then ret tt
  else
    messageType <- read_u8_init 0 ;;
    if messageType =? 0 then framebufferUpdate
    else qCWarning (W_UnknownMessageType messageType).

(** [read()], the dispatcher on the handshaking state. *)
Definition read : M unit :=
  st <- get st_state ;;
  match st with
  | ProtocolVersionState => parseProtocolVersion
  | SecurityState => parseSecurity
  | ServerInitState => parserServerInit
  | WaitingState => parseServerMessages
  | _ => n <- bytesAvailable ;; socket_read n ;;; ret tt
  end.

(** The state when the socket's [connected] signal has been handled up
    to the first [read()]: a fresh [Private] whose socket holds [avail]
    and will still deliver [pending]. *)
Definition connected_state (avail : list Z) (pending : list (list Z)) : state :=
  mkState ProtocolVersionState PixelFormat_default avail pending
    (fun _ => inflateInit) (fun _ => false)
    ProtocolVersionUnknown SecurityTypeUnknwon QImage_null 0 0
    [Emit (connectionStateChanged true)] [].

(** The slot connected to the socket's [connected] signal. *)
Definition on_connected : M unit :=
  emit (connectionStateChanged true) ;;;
  modify (set_state ProtocolVersionState) ;;;
  setProtocolVersion ProtocolVersionUnknown ;;;
  setSecurityType SecurityTypeUnknwon ;;;
  read.

End Engine.

(** ** Input encoder *)

Inductive socket_status := NoSocket | Unconnected | ConnectedSocket.

Inductive event_type := KeyPress | KeyRelease | OtherEvent.

(** What [keyEvent] looks at in a [QKeyEvent]; [ev_text] is the text as
    UTF-16 code units. *)
Record QKeyEvent := mkKeyEvent {
  ev_type : event_type;
  ev_key : Z;
  ev_text : list Z
}.

(** [Qt::Key] values, from Qt's [qnamespace.h]. *)
Definition Key_Tab : Z := 16777217.
Definition Key_Backspace : Z := 16777219.
Definition Key_Return : Z := 16777220.
Definition Key_Enter : Z := 16777221.
Definition Key_Insert : Z := 16777222.
Definition Key_Delete : Z := 16777223.
Definition Key_Home : Z := 16777232.
Definition Key_End : Z := 16777233.
Definition Key_Left : Z := 16777234.
Definition Key_Up : Z := 16777235.
Definition Key_Right : Z := 16777236.
Definition Key_Down : Z := 16777237.
Definition Key_PageUp : Z := 16777238.
Definition Key_PageDown : Z := 16777239.
Definition Key_Shift : Z := 16777248.
Definition Key_Control : Z := 16777249.
Definition Key_Meta : Z := 16777250.
Definition Key_Alt : Z := 16777251.
Definition Key_F1 : Z := 16777264.

(** [keyList] of the constructor. *)
Definition keyList : list (Z * Z) :=
  [ (Key_Backspace, 65288); (Key_Tab, 65289); (Key_Return, 65293);
    (Key_Enter, 65293); (Key_Insert, 65379); (Key_Delete, 65535);
    (Key_Home, 65360); (Key_End, 65367); (Key_PageUp, 65365);
    (Key_PageDown, 65366); (Key_Left, 65361); (Key_Up, 65362);
    (Key_Right, 65363); (Key_Down, 65364);
    (Key_F1, 65470); (Key_F1 + 1, 65471); (Key_F1 + 2, 65472);
    (Key_F1 + 3, 65473); (Key_F1 + 4, 65474); (Key_F1 + 5, 65475);
    (Key_F1 + 6, 65476); (Key_F1 + 7, 65477); (Key_F1 + 8, 65478);
    (Key_F1 + 9, 65479); (Key_F1 + 10, 65480); (Key_F1 + 11, 65481);
    (Key_Shift, 65505); (Key_Control, 65507); (Key_Meta, 65511);
    (Key_Alt, 65513) ].

(** [QMap<int, quint32>]: [insert] replaces the value of a key already
    present. *)
Fixpoint QMap_insert (m : list (Z * Z)) (k v : Z) : list (Z * Z) :=
  match m with
  | [] => [(k, v)]
  | (k', v') :: m' =>
      if k' =? k then (k, v) :: m' else (k', v') :: QMap_insert m' k v
  end.

Fixpoint QMap_value (m : list (Z * Z)) (k : Z) : option Z :=
  match m with
  | [] => None
  | (k', v) :: m' => if k' =? k then Some v else QMap_value m' k
  end.

Definition keyMap : list (Z * Z) :=
  fold_left (fun m kv => QMap_insert m (fst kv) (snd kv)) keyList [].

(** [keyEvent(e)].  [code] is declared without an initialiser; when
    neither branch assigns it, the four bytes written are whatever the
    object held, here [uninit]. *)
Definition keyEvent (socket : socket_status) (uninit : Z) (e : QKeyEvent)
  : list action :=
  match socket with
  | NoSocket => []
  | _ =>
      let write_valid (bytes : list Z) :=
        match socket with ConnectedSocket => [Write bytes] | _ => [] end in
      let messageType := 4 in
      let downFlag := match ev_type e with KeyPress => 1 | _ => 0 end in
      let key := ev_key e in
      let code :=
        match QMap_value keyMap key with
        | Some v => v
        | None =>
            match ev_text e with
            | c :: _ => c
            | [] => uninit
            end
        end in
      write_valid [messageType]
      ++ write_valid [downFlag]
      ++ match socket with
         | ConnectedSocket => [Write [32; 32]]
         | _ => [Warn W_DeviceNotOpen]
         end
      ++ write_valid (be32 code)
  end.

Notation "x <- m ;; k" := (bind m (fun x => k))
  (at level 61, m at next level, right associativity).
Notation "m ;;; k" := (bind m (fun _ => k))
  (at level 61, right associativity).

(** ** The specification's own wording, for comparison with the code *)

(** The 1-to-3-byte continuation scheme of the specification's "Length
    encoding" paragraph: the value and the bytes left. *)
Definition spec_tight_length (bs : list Z) : option (Z * list Z) :=
  match bs with
  | [] => None
  | b0 :: r0 =>
      if Z.land b0 128 =? 0 then Some (b0, r0)
      else
        match r0 with
        | [] => None
        | b1 :: r1 =>
            if Z.land b1 128 =? 0
            then Some (Z.lor (Z.land b0 127) (Z.shiftl b1 7), r1)
            else
              match r1 with
              | [] => None
              | b2 :: r2 =>
                  Some (Z.lor (Z.lor (Z.land b0 127)
                                     (Z.shiftl (Z.land b1 127) 7))
                              (Z.shiftl b2 14), r2)
              end
        end
  end.




(** ** A small stand-in for the external decoders

    Used to run the engine on concrete inputs.  The compressed format is
    a miniature of LZ77: a byte below 128 is a literal, a byte [128 + d]
    copies the byte [d + 1] positions back in what the stream has
    produced so far, and fails ([Z_DATA_ERROR]) when the history is that
    short.  The stream state is that history.  The one-shot function
    decodes its argument from an empty history.  The image format is a
    width byte, a height byte and one byte per pixel, 0 for black and
    anything else for white. *)
Definition Z_DATA_ERROR : Z := -3.

Fixpoint toy_inflate_from (input hist out : list Z) : list Z * list Z * Z :=
  match input with
  | [] => (hist, out, Z_OK)
  | b :: rest =>
      if b <? 128 then toy_inflate_from rest (hist ++ [b]) (out ++ [b])
      else
        let d := b - 127 in
        if d <=? lenZ hist then
          let v := nth (length hist - Z.to_nat d) hist 0 in
          toy_inflate_from rest (hist ++ [v]) (out ++ [v])
        else (hist, out, Z_DATA_ERROR)
  end.

Definition toy_inflate (z : list Z) (input : list Z) (avail_out : Z)
  : list Z * list Z * Z :=
  toy_inflate_from input z [].

Definition toy_qUncompress (data : list Z) : list Z :=
  match toy_inflate_from data [] [] with
  | (_, out, code) => if code =? Z_OK then out else []
  end.

Definition toy_loadFromData (data : list Z) : option QImage :=
  match data with
  | w :: h :: px =>
      if (0 <? w) && (0 <? h) && (lenZ px =? w * h)
      then Some (mkImage w h
                   (fun x y => if nth (Z.to_nat (y * w + x)) px 0 =? 0
                               then 4278190080 else white))
      else None
  | _ => None
  end.

Definition ToyCodecs : Codecs :=
  Build_Codecs [] toy_inflate toy_qUncompress toy_loadFromData.

(** A 32-bit true-colour format with red at bit 16, green at bit 8 and
    blue at bit 0; [be] is the [bigEndianFlag]. *)
Definition pf_rgb888 (be : Z) : PixelFormat :=
  mkPixelFormat 32 24 be 1 255 255 255 16 8 0 0 0 0.

(** The same channels in a 16-bit-per-pixel format. *)
Definition pf_16bpp : PixelFormat :=
  mkPixelFormat 16 16 0 1 31 63 31 11 5 0 0 0 0.

(** The version strings the handshake recognises. *)
Definition recognised_version (value : list Z) : bool :=
  bytes_eqb value RFB_003_003 || bytes_eqb value RFB_003_007
  || bytes_eqb value RFB_003_008.

(** [downFlag] of a key event. *)
Definition downFlag_of (e : QKeyEvent) : Z :=
  match ev_type e with KeyPress => 1 | _ => 0 end.

(** A client in [WaitingState] on a [w] x [h] white framebuffer. *)
Definition waiting_state {C : Codecs} (pf : PixelFormat) (w h : Z)
    (avail : list Z) (pending : list (list Z)) : state :=
  mkState WaitingState pf avail pending
    (fun _ => inflateInit) (fun _ => false)
    ProtocolVersion33 SecurityTypeNone (QImage_new_white w h) w h [] [].

(** The 12 bytes of a rectangle header. *)
Definition rect_header (x y w h e : Z) : list Z :=
  be16 x ++ be16 y ++ be16 w ++ be16 h ++ be32 e.

(** The three [write] calls of an incremental request for the whole
    framebuffer. *)
Definition incremental_request (w h : Z) : list (list Z) :=
  [[FramebufferUpdateRequest]; [1]; be16 0 ++ be16 0 ++ be16 w ++ be16 h].

(** The actions a state gained over an earlier one. *)
Definition new_trace {C : Codecs} (s s' : state) : list action :=
  skipn (length (st_trace s)) (st_trace s').

Definition result_state {C : Codecs} {A} (r : result (A * state)) (d : state)
  : state :=
  match r with Ok (_, s) => s | _ => d end.

(** The warnings after which a decoder asks for a new update. *)
Definition failure_warning (w : warning) : bool :=
  match w with
  | W_TightControlTimeout | W_JpegLengthTimeout | W_TightReadFailed
  | W_TightDecompressFailed | W_JpegReadFailed | W_JpegDecodeFailed
  | W_ZrleDecompressFailed => true
  | _ => false
  end.

Definition request_actions (w h : Z) : list action :=
  map Write (incremental_request w h).

(** The shape of what the client does while it processes updates on a
    [w] x [h] framebuffer: signals taken from [E], warnings, and
    incremental whole-framebuffer requests; a failure warning is followed
    at once by such a request, a request on its own occurs only where
    [plain] allows it, and nothing else is ever written. *)
Inductive steady_trace (w h : Z) (plain : bool) (E : signal -> Prop)
  : list action -> Prop :=
| steady_nil : steady_trace w h plain E []
| steady_emit e d :
    E e -> steady_trace w h plain E d -> steady_trace w h plain E (Emit e :: d)
| steady_warn x d :
    failure_warning x = false -> steady_trace w h plain E d ->
    steady_trace w h plain E (Warn x :: d)
| steady_failure x d :
    failure_warning x = true -> steady_trace w h plain E d ->
    steady_trace w h plain E (Warn x :: request_actions w h ++ d)
| steady_request d :
    plain = true -> steady_trace w h plain E d ->
    steady_trace w h plain E (request_actions w h ++ d).


(** The encodings [framebufferUpdate] dispatches on. *)
Definition known_encoding (e : Z) : bool :=
  (e =? ZRLE) || (e =? Tight) || (e =? Hextile) || (e =? RawEncoding).

Definition rect_signal (r : Rectangle) : signal :=
  imageChanged (rx r) (ry r) (rw r) (rh r).

(** What the update loop itself emits for a rectangle header. *)
Definition notification (h : Rectangle * Z) : list signal :=
  if known_encoding (snd h) then [rect_signal (fst h)] else [].

(** [imageChanged] for one of the headers [hs], with its rectangle as it
    came off the wire. *)
Definition emitted_from (hs : list (Rectangle * Z)) (e : signal) : Prop :=
  exists h, In h hs /\ e = rect_signal (fst h).



(** Progress of the update loop over the headers [hs]: geometry, pixel
    format and handshaking state stay; the wire history grows by [hs];
    the trace grows by a [steady_trace] whose signals are notifications
    for [hs]; and when no header is Raw there is no request on its own
    and the signals are exactly one per header with a known tag, in the
    order of [hs]. *)
Definition update_progress {C : Codecs} (hs : list (Rectangle * Z))
    (s s' : state) : Prop :=
  st_frameBufferWidth s' = st_frameBufferWidth s /\
  st_frameBufferHeight s' = st_frameBufferHeight s /\
  st_pixelFormat s' = st_pixelFormat s /\
  st_state s' = st_state s /\
  iw (st_image s') = iw (st_image s) /\
  ih (st_image s') = ih (st_image s) /\
  st_wire s' = st_wire s ++ hs /\
  exists d,
    st_trace s' = st_trace s ++ d /\
    steady_trace (st_frameBufferWidth s) (st_frameBufferHeight s) true
                 (emitted_from hs) d /\
    (Forall (fun h => snd h <> RawEncoding) hs ->
     steady_trace (st_frameBufferWidth s) (st_frameBufferHeight s) false
                  (emitted_from hs) d /\
     emits d = flat_map notification hs).



(** ** Concrete runs

    Inputs on which the engine is run below, with [ToyCodecs] for the
    external decoders.  Unless said otherwise the client is in
    [WaitingState] on a white 4 x 4 framebuffer, the format is
    [pf_rgb888 0], and the socket holds what follows the message-type
    byte of a FramebufferUpdate: padding, rectangle count, rectangles. *)







(** One Raw 1 x 2 rectangle (two rows of one pixel). *)
Definition run_raw_two_rows : state :=
  waiting_state (C := ToyCodecs) (pf_rgb888 0) 4 4
    ([0; 0; 1] ++ rect_header 0 0 1 2 RawEncoding
     ++ [0; 0; 255; 0] ++ [0; 255; 0; 0]) [].



(** The bytes of a ServerInit for 4 x 4, format [pf_rgb888 0], no name. *)
Definition run_server_init : state :=
  mkState (C := ToyCodecs) ServerInitState PixelFormat_default
    (be16 4 ++ be16 4 ++ PixelFormat_to_bytes (pf_rgb888 0) ++ be32 0 ++ [] ++ [])
    [] (fun _ => []) (fun _ => false) ProtocolVersion33 SecurityTypeNone
    QImage_null 0 0 [] [].

(** "RFB 003.889\n", a version string the handshake does not know,
    followed by "RFB 003.003\n". *)
Definition RFB_003_889 : list Z := [82; 70; 66; 32; 48; 48; 51; 46; 56; 56; 57; 10].

Definition run_unknown_version : state :=
  connected_state (C := ToyCodecs) (RFB_003_889 ++ RFB_003_003) [].

Definition run_known_version : state :=
  connected_state (C := ToyCodecs) (RFB_003_008 ++ []) [].

(** Length bytes 0x81 0x01 0x05: 129 in the specification's scheme. *)
Definition run_length_bytes : state :=
  waiting_state (C := ToyCodecs) (pf_rgb888 0) 4 4 [129; 1; 5] [].


(** A Hextile 1 x 1 rectangle at (1, 2) whose tile byte is 0, under a
    16-bit-per-pixel format. *)
Definition run_hextile_16bpp : state :=
  waiting_state (C := ToyCodecs) pf_16bpp 4 4
    ([0; 0; 1] ++ rect_header 1 2 1 1 Hextile ++ [0]) [].






(** The state a run ends in. *)
Definition after_update (s : state (C := ToyCodecs)) : state :=
  result_state (framebufferUpdate s) s.

(** ** Pointer events *)

(** What [pointerEvent] looks at in a [QMouseEvent]: the [buttons()]
    flags, and the two coordinates of [position()] as [qRound] gives
    them (an [int] each). *)
Record QMouseEvent := mkMouseEvent {
  ev_buttons : Z;
  ev_x : Z;
  ev_y : Z
}.

(** [Qt::MouseButton] values, from Qt's [qnamespace.h]. *)
Definition LeftButton : Z := 1.
Definition RightButton : Z := 2.
Definition MiddleButton : Z := 4.

(** [pointerEvent(e)].  Every byte goes through the [write] templates,
    which do nothing unless the socket is connected.  The conversion of
    the rounded [int] to [quint16_be] keeps its low sixteen bits. *)
Definition pointerEvent (socket : socket_status) (e : QMouseEvent)
  : list action :=
  match socket with
  | NoSocket => []
  | Unconnected => []
  | ConnectedSocket =>
      let messageType := 5 in
      let buttonMask := 0 in
      let buttonMask :=
        if flag (ev_buttons e) LeftButton then Z.lor buttonMask 1
        else buttonMask in
      let buttonMask :=
        if flag (ev_buttons e) MiddleButton then Z.lor buttonMask 2
        else buttonMask in
      let buttonMask :=
        if flag (ev_buttons e) RightButton then Z.lor buttonMask 4
        else buttonMask in
      [Write [messageType]; Write [buttonMask];
       Write (be16 (wrap16 (ev_x e))); Write (be16 (wrap16 (ev_y e)))]
  end.

(** The numeric values of [enum HandshakingState]. *)
Definition HandshakingState_value (st : HandshakingState) : Z :=
  match st with
  | ProtocolVersionState => 1553
  | SecurityState => 1554
  | SecurityResultState => 1555
  | ClientInitState => 1585
  | ServerInitState => 1586
  | WaitingState => 1600
  end.


Section Slots.

Context {C : Codecs}.

(** The slot connected to the socket's [readyRead] signal, run when
    [chunk] has been added to the socket's buffer. *)
Definition on_readyRead (chunk : list Z) : M unit :=
  modify (fun s => set_sock (st_avail s ++ chunk) (st_pending s) s) ;;; read.

(** One [readyRead] after the other. *)
Fixpoint on_readyRead_all (chunks : list (list Z)) : M unit :=
  match chunks with
  | [] => ret tt
  | chunk :: rest => on_readyRead chunk ;;; on_readyRead_all rest
  end.


(** What the trace gained since [s] holds no write and no signal. *)
Definition quiet_since (s s' : state) : Prop :=
  exists d, st_trace s' = st_trace s ++ d /\ writes d = [] /\ emits d = [].

(** The block [x0 <= X < x0 + w], [y0 <= Y < y0 + h]. *)
Definition in_block (x0 y0 w h X Y : Z) : bool :=
  (x0 <=? X) && (X <? x0 + w) && (y0 <=? Y) && (Y <? y0 + h).


(** The image has kept its size and no pixel outside the rectangle has
    changed. *)
Definition keeps_outside (rect : Rectangle) (s s' : state) : Prop :=
  iw (st_image s') = iw (st_image s) /\
  ih (st_image s') = ih (st_image s) /\
  forall X Y,
    in_block (rx rect) (ry rect) (rw rect) (rh rect) X Y = false ->
    pixel (st_image s') X Y = pixel (st_image s) X Y.

(** The negotiated values and the handshaking state are as before. *)
Definition same_negotiation (s s' : state) : Prop :=
  st_protocolVersion s' = st_protocolVersion s /\
  st_securityType s' = st_securityType s /\
  st_state s' = st_state s.

(** The handshaking state is as before or one of [T]; the protocol
    version is as before or 3.3. *)
Definition moves_into (T : HandshakingState -> Prop) (s s' : state) : Prop :=
  (st_state s' = st_state s \/ T (st_state s')) /\
  (st_protocolVersion s' = st_protocolVersion s \/
   st_protocolVersion s' = ProtocolVersion33).

End Slots.

(** A client in the middle of the handshake, in state [st] with version
    [v] and security type [sec], whose socket holds [avail]. *)
Definition handshaking_state {C : Codecs} (st : HandshakingState)
    (v : ProtocolVersion) (sec : Z) (avail : list Z) : state :=
  mkState st PixelFormat_default avail [] (fun _ => inflateInit)
    (fun _ => false) v sec QImage_null 0 0 [] [].


(** The state a computation ends in on the stand-in decoders. *)
Definition toy_result {A} (m : M (C := ToyCodecs) A)
    (s : state (C := ToyCodecs)) : state :=
  result_state (m s) s.

(** * Facts *)

Lemma writes_app (a b : list action) : writes (a ++ b) = writes a ++ writes b.
Proof.
  induction a as [|x a IH]; simpl; [reflexivity|].
  destruct x; simpl; rewrite IH; reflexivity.
Qed.

Lemma emits_app (a b : list action) : emits (a ++ b) = emits a ++ emits b.
Proof.
  induction a as [|x a IH]; simpl; [reflexivity|].
  destruct x; simpl; rewrite IH; reflexivity.
Qed.

Lemma sent_app (a b : list action) : sent (a ++ b) = sent a ++ sent b.
Proof.
  induction a as [|x a IH]; simpl; [reflexivity|].
  destruct x; simpl; rewrite IH; try reflexivity.
  now rewrite app_assoc.
Qed.

Lemma sent_writes (a : list action) : sent a = concat (writes a).
Proof.
  induction a as [|x a IH]; simpl; [reflexivity|].
  destruct x; simpl; rewrite IH; reflexivity.
Qed.

Lemma repeat_plus {A} (x : A) (n m : nat) :
  repeat x (n + m) = repeat x n ++ repeat x m.
Proof. induction n; simpl; [reflexivity|now rewrite IHn]. Qed.

Section Facts.

Context {C : Codecs}.

(** ** Stepwise invariants

    [ensures R m]: whenever [m] ends normally, the states before and
    after are related by [R]. *)
Definition ensures {A} (R : state -> state -> Prop) (m : M A) : Prop :=
  forall s a s', m s = Ok (a, s') -> R s s'.

Section Stepwise.

Variable R : state -> state -> Prop.
Hypothesis R_refl : forall s, R s s.
Hypothesis R_trans : forall s1 s2 s3, R s1 s2 -> R s2 s3 -> R s1 s3.

Lemma ensures_ret {A} (a : A) : ensures R (ret a).
Proof. intros s a' s' H. inversion H; subst. apply R_refl. Qed.

Lemma ensures_undef {A} : ensures R (@undef _ A).
Proof. intros s a s' H. discriminate H. Qed.

Lemma ensures_get {A} (f : state -> A) : ensures R (get f).
Proof. intros s a s' H. inversion H; subst. apply R_refl. Qed.

Lemma ensures_bind {A B} (m : M A) (k : A -> M B) :
  ensures R m -> (forall a, ensures R (k a)) -> ensures R (bind m k).
Proof.
  intros Hm Hk s b s' H. unfold bind in H.
  destruct (m s) as [[a s1]| |] eqn:E; try discriminate.
  eapply R_trans; [eapply Hm; eassumption|eapply Hk; eassumption].
Qed.

Lemma ensures_for (n : nat) (i step : Z) (body : Z -> M ctl) :
  (forall j, ensures R (body j)) -> ensures R (for_ n i step body).
Proof.
  intros Hb. revert i. induction n as [|n IH]; intros i; simpl.
  - apply ensures_ret.
  - apply ensures_bind; [apply Hb|]. intros [|]; [apply IH|apply ensures_ret].
Qed.

Lemma ensures_for_acc {A} (n : nat) (i step : Z)
    (body : Z -> A -> M (ctl * A)) (a : A) :
  (forall j b, ensures R (body j b)) -> ensures R (for_acc n i step body a).
Proof.
  intros Hb. revert i a. induction n as [|n IH]; intros i a; simpl.
  - apply ensures_ret.
  - apply ensures_bind; [apply Hb|]. intros [c b]; simpl.
    destruct c; [apply IH|apply ensures_ret].
Qed.

Lemma ensures_modify (f : state -> state) :
  (forall s, R s (f s)) -> ensures R (modify f).
Proof. intros Hf s a s' H. inversion H; subst. apply Hf. Qed.

Hypothesis R_sock : forall s a p, R s (set_sock a p s).
Hypothesis R_warn :
  forall s w, failure_warning w = false -> R s (add_trace [Warn w] s).
Hypothesis R_image :
  forall s img, iw img = iw (st_image s) -> ih img = ih (st_image s) ->
                R s (set_image img s).
Hypothesis R_zlib : forall s z a, R s (set_zlib z a s).
Hypothesis R_request : ensures R (framebufferUpdateRequest true None).
Hypothesis R_failure :
  forall w, failure_warning w = true ->
    ensures R (qCWarning w ;;; framebufferUpdateRequest true None).

Lemma ensures_socket_read n : ensures R (socket_read n).
Proof. intros s a s' H. inversion H; subst. apply R_sock. Qed.

Lemma ensures_read_T n : ensures R (read_T n).
Proof.
  intros s a s' H. unfold read_T in H.
  destruct (n <=? lenZ (st_avail s)); inversion H; subst. apply R_sock.
Qed.

Lemma ensures_read_u8_init i : ensures R (read_u8_init i).
Proof.
  intros s a s' H. unfold read_u8_init in H.
  destruct (st_avail s); inversion H; subst; [apply R_refl|apply R_sock].
Qed.

Lemma ensures_waitForReadyRead : ensures R waitForReadyRead.
Proof.
  intros s a s' H. unfold waitForReadyRead in H.
  destruct (st_pending s); inversion H; subst; [apply R_refl|apply R_sock].
Qed.

Lemma ensures_wait_for_bytes n : ensures R (wait_for_bytes n).
Proof.
  intros s a s' H. unfold wait_for_bytes in H.
  destruct (wait_loop n (st_avail s) (st_pending s)) as [[a' p']|];
    inversion H; subst. apply R_sock.
Qed.

Lemma ensures_qCWarning w : failure_warning w = false -> ensures R (qCWarning w).
Proof. intros Hw. apply ensures_modify. intros s. now apply R_warn. Qed.

Lemma ensures_zrle_wait n : ensures R (zrle_wait n).
Proof.
  intros s a s' H. unfold zrle_wait in H.
  destruct (zrle_wait_loop n (st_avail s) (st_pending s)) as [[a' p'] t].
  destruct t.
  - eapply R_trans; [apply R_sock|].
    eapply (@ensures_qCWarning W_ZrleTimeout eq_refl). exact H.
  - inversion H; subst. apply R_sock.
Qed.

Lemma ensures_setPixel x y c : ensures R (setPixel x y c).
Proof.
  intros s a s' H. unfold setPixel in H.
  destruct (in_image (st_image s) x y); inversion H; subst.
  - apply R_image; reflexivity.
  - now apply R_warn.
Qed.

Lemma ensures_int_checked v : ensures R (int_checked v).
Proof.
  unfold int_checked. destruct (v <=? 2147483647);
    [apply ensures_ret|apply ensures_undef].
Qed.

Lemma ensures_buf_bytes d o n : ensures R (buf_bytes d o n).
Proof.
  unfold buf_bytes. destruct ((0 <=? o) && (o + n <=? lenZ d));
    [apply ensures_ret|apply ensures_undef].
Qed.

Lemma ensures_buf_u8 d o : ensures R (buf_u8 d o).
Proof.
  unfold buf_u8. apply ensures_bind; [apply ensures_buf_bytes|].
  intros. apply ensures_ret.
Qed.

Lemma ensures_set_zlib z a : ensures R (modify (set_zlib z a)).
Proof. apply ensures_modify. intros s. apply R_zlib. Qed.

Ltac ensures_prim :=
  first
    [ apply ensures_ret | apply ensures_undef | apply ensures_get
    | apply ensures_socket_read | apply ensures_read_T
    | apply ensures_read_u8_init | apply ensures_waitForReadyRead
    | apply ensures_wait_for_bytes
    | apply ensures_qCWarning; reflexivity
    | apply ensures_zrle_wait | apply ensures_setPixel
    | apply ensures_int_checked | apply ensures_buf_bytes
    | apply ensures_buf_u8 | apply ensures_set_zlib
    | assumption ].

Ltac ensures_step :=
  cbv beta zeta;
  lazymatch goal with
  | |- ensures _ (bind (qCWarning _) (fun _ => framebufferUpdateRequest true None)) =>
      apply R_failure; reflexivity
  | |- ensures _ (bind (handleTightJpeg _ _) _) =>
      match goal with H : _ |- _ => apply H end
  | |- ensures _ (bind _ _) => apply ensures_bind; [ | intros ]
  | |- ensures _ (for_ _ _ _ _) => apply ensures_for; intros
  | |- ensures _ (for_acc _ _ _ _ _) =>
      apply ensures_for_acc; intros
  | |- ensures _ (if ?b then _ else _) => destruct b
  | |- ensures _ (match ?x with _ => _ end) => destruct x
    | |- ensures _ _ => ensures_prim
  end.

Ltac ensures_auto := repeat ensures_step.

Lemma ensures_fill_block pf x0 y0 nw nh c : ensures R (fill_block pf x0 y0 nw nh c).
Proof. unfold fill_block. ensures_auto. Qed.

Lemma ensures_hextile_tile rect pf ty th tx tw colors :
  ensures R (hextile_tile rect pf ty th tx tw colors).
Proof.
  pose proof ensures_fill_block as Hfill.
  unfold hextile_tile, hextile_raw_tile, hextile_subrect, hextile_color.
  ensures_auto; apply Hfill.
Qed.

Lemma ensures_handleHextileEncoding rect : ensures R (handleHextileEncoding rect).
Proof.
  pose proof ensures_hextile_tile as Htile.
  unfold handleHextileEncoding. ensures_auto; apply Htile.
Qed.

Lemma ensures_zrle_tile rect pf data ty th tx tw off :
  ensures R (zrle_tile rect pf data ty th tx tw off).
Proof.
  pose proof ensures_fill_block as Hfill.
  unfold zrle_tile, zrle_raw_tile, zrle_raw_color, zrle_packed_tile,
    zrle_packed_rows, zrle_packed_index.
  ensures_auto; try apply Hfill.
Qed.

Lemma ensures_zrle_tiles rect data : ensures R (zrle_tiles rect data).
Proof.
  pose proof ensures_zrle_tile as Htile.
  unfold zrle_tiles. ensures_auto; apply Htile.
Qed.

Lemma ensures_zrle_decoded rect data : ensures R (zrle_decoded rect data).
Proof.
  pose proof ensures_zrle_tiles as Htiles.
  unfold zrle_decoded. ensures_auto; apply Htiles.
Qed.

Lemma ensures_handleZRLEEncoding rect : ensures R (handleZRLEEncoding rect).
Proof.
  pose proof ensures_zrle_decoded as Hdec.
  unfold handleZRLEEncoding. ensures_auto; apply Hdec.
Qed.

Lemma ensures_read_loop fuel len total buf :
  ensures R (read_loop fuel len total buf).
Proof.
  revert total buf. induction fuel as [|fuel IH]; intros total buf; simpl.
  - ensures_auto.
  - ensures_auto; apply IH.
Qed.

Lemma ensures_handleTightJpeg rect len :
  ensures R (ok <- handleTightJpeg rect len ;;
             if ok then ret tt else framebufferUpdateRequest true None).
Proof.
  intros s a s' H. unfold bind at 1 in H. unfold handleTightJpeg in H.
  unfold bind at 1 in H. unfold read_payload in H.
  destruct (read_loop (Z.to_nat len) len 0 [] s) as [[r s1]| |] eqn:E1;
    try discriminate.
  apply ensures_read_loop in E1. eapply R_trans; [exact E1|]. clear E1.
  destruct r as [data|].
  - destruct (loadFromData data) as [j|].
    + unfold bind, get, modify, ret in H. inversion H; subst.
      apply R_image; reflexivity.
    + eapply (@R_failure W_JpegDecodeFailed eq_refl).
      unfold bind, qCWarning, modify, ret in *. exact H.
  - eapply (@R_failure W_JpegReadFailed eq_refl).
    unfold bind, qCWarning, modify, ret in *. exact H.
Qed.

Lemma ensures_decompressTightData streamId data n :
  ensures R (decompressTightData streamId data n).
Proof.
  unfold decompressTightData.
  apply ensures_bind; [apply ensures_get|intros zs].
  apply ensures_bind; [apply ensures_get|intros act].
  destruct (inflate (zs streamId) data n) as [[z' out] code].
  ensures_auto.
Qed.

Lemma ensures_tight_pixels rect pf data : ensures R (tight_pixels rect pf data).
Proof. unfold tight_pixels, tight_color. ensures_auto. Qed.

Lemma ensures_handleTightEncoding rect : ensures R (handleTightEncoding rect).
Proof.
  pose proof ensures_read_loop as Hloop.
  pose proof ensures_handleTightJpeg as Hjpeg.
  pose proof ensures_decompressTightData as Hdec.
  pose proof ensures_tight_pixels as Hpix.
  unfold handleTightEncoding, tight_jpeg, tight_basic, tight_jpeg_length,
    tight_basic_length, tight_prepare_stream, read_payload, bytesAvailable.
  ensures_auto; first [apply Hloop | apply Hjpeg | apply Hdec | apply Hpix].
Qed.

(** The Raw decoder is the one that emits: the rectangle's own
    [imageChanged], once per row. *)
Lemma ensures_handleRawEncoding rect :
  (forall s, R s (add_trace
                    [Emit (imageChanged (rx rect) (ry rect) (rw rect) (rh rect))] s)) ->
  ensures R (handleRawEncoding rect).
Proof.
  intros Hemit.
  assert (He : ensures R
            (emit (imageChanged (rx rect) (ry rect) (rw rect) (rh rect)))).
  { apply ensures_modify. exact Hemit. }
  unfold handleRawEncoding, raw_row, raw_pixel. ensures_auto.
Qed.

End Stepwise.

End Facts.

(** ** The decoders' footprint *)






(** Without failure warnings and without requests on their own, nothing
    is written at all. *)
Lemma steady_trace_quiet w h E d :
  steady_trace w h false E d ->
  (forall x, In (Warn x) d -> failure_warning x = false) ->
  writes d = [].
Proof.
  intros Hd. induction Hd as [|e d He Hd IH|x d Hx Hd IH
                               |x d Hx Hd IH|d Hp Hd IH]; intros Hq.
  - reflexivity.
  - simpl. apply IH. intros y Hy. apply Hq. now right.
  - simpl. apply IH. intros y Hy. apply Hq. now right.
  - specialize (Hq x (or_introl eq_refl)). congruence.
  - discriminate.
Qed.

Section Footprint.

Context {C : Codecs}.
Variable plain : bool.
Variable E : signal -> Prop.








(** What [framebufferUpdateRequest()] with its default arguments adds. *)
Lemma framebufferUpdateRequest_default s :
  framebufferUpdateRequest true None s =
  Ok (tt, add_trace (request_actions (st_frameBufferWidth s)
                                     (st_frameBufferHeight s)) s).
Proof.
  unfold framebufferUpdateRequest, bind, write, modify, get, add_trace; simpl.
  unfold request_actions, incremental_request, Rectangle_to_bytes; simpl.
  repeat rewrite <- app_assoc. reflexivity.
Qed.



End Footprint.

Section Decoders.

Context {C : Codecs}.






End Decoders.

(** ** The update loop *)

Section UpdateLoop.

Context {C : Codecs}.















End UpdateLoop.

Section UpdateTheorems.

Context {C : Codecs}.

Lemma takeZ_app {A} (a b : list A) n : lenZ a = n -> takeZ n (a ++ b) = a.
Proof.
  intros <-. unfold takeZ, lenZ. rewrite Nat2Z.id.
  rewrite firstn_app, Nat.sub_diag, firstn_all. simpl. apply app_nil_r.
Qed.

Lemma dropZ_app {A} (a b : list A) n : lenZ a = n -> dropZ n (a ++ b) = b.
Proof.
  intros <-. unfold dropZ, lenZ. rewrite Nat2Z.id.
  rewrite skipn_app, Nat.sub_diag, skipn_all. reflexivity.
Qed.

Lemma lenZ_app {A} (a b : list A) : lenZ (a ++ b) = lenZ a + lenZ b.
Proof. unfold lenZ. rewrite length_app. lia. Qed.

Lemma lenZ_nonneg {A} (a : list A) : 0 <= lenZ a.
Proof. unfold lenZ. lia. Qed.

Lemma read_T_app n bs rest s :
  lenZ bs = n -> st_avail s = bs ++ rest ->
  read_T n s = Ok (bs, set_sock rest (st_pending s) s).
Proof.
  intros Hn Ha. unfold read_T. rewrite Ha.
  assert (Hle : (n <=? lenZ (bs ++ rest)) = true).
  { apply Z.leb_le. rewrite lenZ_app. pose proof (lenZ_nonneg rest). lia. }
  rewrite Hle. rewrite (takeZ_app _ _ Hn), (dropZ_app _ _ Hn). reflexivity.
Qed.

Lemma socket_read_app n bs rest s :
  lenZ bs = n -> st_avail s = bs ++ rest ->
  socket_read n s = Ok (bs, set_sock rest (st_pending s) s).
Proof.
  intros Hn Ha. unfold socket_read. rewrite Ha.
  rewrite (takeZ_app _ _ Hn), (dropZ_app _ _ Hn). reflexivity.
Qed.

Lemma update_progress_sock hs s a p s' :
  update_progress hs (set_sock a p s) s' -> update_progress hs s s'.
Proof. intros H. exact H. Qed.




End UpdateTheorems.

(** ** Recovery, notifications and geometry of a FramebufferUpdate *)

Section UpdateClaims.

Context {C : Codecs}.



(** [parserServerInit()] on a complete ServerInit message. *)
Lemma parserServerInit_complete (s : state) (wb hb pfb nb name rest : list Z) :
  st_avail s = wb ++ hb ++ pfb ++ nb ++ name ++ rest ->
  lenZ wb = 2 -> lenZ hb = 2 -> lenZ pfb = 16 -> lenZ nb = 4 ->
  lenZ name = of_be32 nb ->
  parserServerInit s =
  Ok (tt,
      add_trace
        ([Emit (framebufferSizeChanged (of_be16 wb) (of_be16 hb));
          Write [SetPixelFormat]; Write [32; 32; 32];
          Write (PixelFormat_to_bytes (PixelFormat_of_bytes pfb));
          Write [SetEncodings]; Write [32]; Write (be16 4);
          Write (be32 Tight); Write (be32 ZRLE); Write (be32 Hextile);
          Write (be32 RawEncoding);
          Write [FramebufferUpdateRequest]; Write [0];
          Write (Rectangle_to_bytes (mkRect 0 0 (of_be16 wb) (of_be16 hb)))])
        (set_state WaitingState
           (set_pixelFormat (PixelFormat_of_bytes pfb)
              (set_image (QImage_new_white (of_be16 wb) (of_be16 hb))
                 (set_frameBufferSize (of_be16 wb) (of_be16 hb)
                    (set_sock rest (st_pending s) s)))))).
Proof.
  intros Ha Hw Hh Hp Hn Hname.
  assert (Hlen : (lenZ (st_avail s) <? 2 + 2 + 16 + 4) = false).
  { apply Z.ltb_ge. rewrite Ha. repeat rewrite lenZ_app.
    pose proof (lenZ_nonneg name). pose proof (lenZ_nonneg rest). lia. }
  unfold parserServerInit.
  unfold bind at 1. unfold bytesAvailable at 1, get at 1. rewrite Hlen.
  unfold bind at 1. erewrite (@read_T_app _ _ _ _ _ Hw); [|exact Ha].
  unfold bind at 1. erewrite (@read_T_app _ _ _ _ _ Hh); [|reflexivity].
  unfold bind at 1, modify at 1. unfold bind at 1, emit at 1, modify at 1.
  unfold bind at 1, modify at 1.
  unfold bind at 1. erewrite (@read_T_app _ _ _ _ _ Hp); [|reflexivity].
  unfold bind at 1, modify at 1.
  unfold bind at 1. erewrite (@read_T_app _ _ _ _ _ Hn); [|reflexivity].
  unfold bind at 1, bytesAvailable at 1, get at 1.
  cbn [st_avail st_pending set_sock set_pixelFormat set_image add_trace
       set_frameBufferSize].
  assert (Hlen' : (lenZ (name ++ rest) <? of_be32 nb) = false).
  { apply Z.ltb_ge. rewrite lenZ_app. pose proof (lenZ_nonneg rest). lia. }
  rewrite Hlen'.
  unfold bind at 1. erewrite (@socket_read_app _ _ _ _ _ Hname); [|reflexivity].
  cbv [bind modify setPixelFormat setEncodings write_encodings
       framebufferUpdateRequest write get ret add_trace set_state
       set_pixelFormat set_image set_frameBufferSize set_sock
       st_state st_pixelFormat st_avail st_pending st_zlibStream
       st_zlibStreamActive st_protocolVersion st_securityType st_image
       st_frameBufferWidth st_frameBufferHeight st_trace st_wire lenZ length
       Z.of_nat Pos.of_succ_nat Pos.succ].
  do 2 f_equal. f_equal. repeat rewrite <- app_assoc. reflexivity.
Qed.


End UpdateClaims.

(** ** Version handshake *)

Section Handshake.

Context {C : Codecs}.

Lemma parseProtocolVersion_short (s : state) :
  lenZ (st_avail s) < 12 -> parseProtocolVersion s = Ok (tt, s).
Proof.
  intros H. unfold parseProtocolVersion, bind, bytesAvailable, get.
  apply Z.ltb_lt in H. now rewrite H.
Qed.

(** C6 (amended).  With twelve bytes [value] buffered and no version
    chosen yet, [parseProtocolVersion] consumes exactly these twelve
    bytes.  If [value] is one of the three recognised strings, the
    version becomes 3.3, [protocolVersionChanged] is emitted, the reply
    written is the twelve bytes "RFB 003.003\n" and the client awaits the
    security type.  For any other string the client only logs a warning:
    nothing is written, the version stays unknown and the client stays
    in [ProtocolVersionState], ready to parse the next twelve bytes as a
    version again. *)
Theorem version_handshake (s : state) (value rest : list Z) :
  st_avail s = value ++ rest ->
  lenZ value = 12 ->
  st_protocolVersion s = ProtocolVersionUnknown ->
  exists s',
    parseProtocolVersion s = Ok (tt, s') /\
    st_avail s' = rest /\
    (recognised_version value = true ->
     st_trace s' = st_trace s ++
                   [Emit (protocolVersionChanged_sig ProtocolVersion33);
                    Write RFB_003_003] /\
     st_protocolVersion s' = ProtocolVersion33 /\
     st_state s' = SecurityState) /\
    (recognised_version value = false ->
     st_trace s' = st_trace s ++ [Warn (W_UnsupportedProtocolVersion value)] /\
     st_protocolVersion s' = ProtocolVersionUnknown /\
     st_state s' = st_state s).
Proof.
  intros Ha Hlen Hv.
  assert (H12 : (lenZ (st_avail s) <? 12) = false).
  { apply Z.ltb_ge. rewrite Ha, lenZ_app. pose proof (lenZ_nonneg rest). lia. }
  assert (Hset : setProtocolVersion ProtocolVersion33
                   (set_sock rest (st_pending s) s) =
                 Ok (tt, set_state SecurityState
                           (add_trace [Write RFB_003_003]
                              (add_trace
                                 [Emit (protocolVersionChanged_sig ProtocolVersion33)]
                                 (set_protocolVersion ProtocolVersion33
                                    (set_sock rest (st_pending s) s)))))).
  { unfold setProtocolVersion, bind, get. cbn [st_protocolVersion set_sock].
    rewrite Hv. reflexivity. }
  unfold parseProtocolVersion, recognised_version.
  unfold bind at 1, bytesAvailable, get. rewrite H12.
  unfold bind at 1. rewrite (@socket_read_app _ _ _ _ _ Hlen Ha).
  destruct (bytes_eqb value RFB_003_003) eqn:E3;
    [|destruct (bytes_eqb value RFB_003_007) eqn:E7;
      [|destruct (bytes_eqb value RFB_003_008) eqn:E8]];
    cbn [orb]; try rewrite Hset;
    eexists; (split; [reflexivity|]);
    cbn [st_avail st_trace st_state st_protocolVersion set_state add_trace
         set_protocolVersion set_sock];
    (split; [reflexivity|]);
    (split; [intros Hr|intros Hr]); try discriminate Hr;
    repeat split; try reflexivity; try exact Hv; now rewrite <- app_assoc.
Qed.

End Handshake.

(** ** Tight: length fields and stream reset *)

Section TightFields.

Context {C : Codecs}.

Lemma lenZ_cons {A} (a : A) (l : list A) : lenZ (a :: l) = 1 + lenZ l.
Proof. unfold lenZ. simpl length. lia. Qed.

Lemma read_T_one (b : Z) (rest : list Z) (s : state) :
  st_avail s = b :: rest ->
  read_T 1 s = Ok ([b], set_sock rest (st_pending s) s).
Proof.
  intros Ha. apply (@read_T_app _ 1 [b] rest s); [reflexivity|exact Ha].
Qed.

(** C3 (amended).  The length field of a Tight payload is not the
    specification's continuation scheme.  In the JPEG branch, after the
    first length byte [b0]: if its top bit is clear the length is [b0]
    and nothing more is read (here the code agrees with the
    specification); otherwise two more bytes are always read and the
    length is the 23-bit big-endian value
    [((b0 & 0x7F) << 16) | (b1 << 8) | b2].  In the zlib branch the
    format is chosen by bit 7 of the control byte [c]: clear, the length
    is the next byte as it stands; set, it is the next three bytes,
    big-endian. *)
Theorem tight_length_fields (s : state) (b0 b1 b2 : Z) (rest : list Z) (c : Z) :
  st_avail s = b0 :: b1 :: b2 :: rest ->
  (Z.land b0 128 = 0 ->
   tight_jpeg_length b0 (set_sock (b1 :: b2 :: rest) (st_pending s) s)
   = Ok (b0, set_sock (b1 :: b2 :: rest) (st_pending s) s) /\
   spec_tight_length (b0 :: b1 :: b2 :: rest) = Some (b0, b1 :: b2 :: rest)) /\
  (Z.land b0 128 <> 0 ->
   tight_jpeg_length b0 (set_sock (b1 :: b2 :: rest) (st_pending s) s)
   = Ok (Z.lor (Z.lor (Z.shiftl (Z.land b0 127) 16) (Z.shiftl b1 8)) b2,
         set_sock rest (st_pending s) s)) /\
  (Z.land c 128 = 0 ->
   tight_basic_length c s = Ok (b0, set_sock (b1 :: b2 :: rest) (st_pending s) s)) /\
  (Z.land c 128 <> 0 ->
   tight_basic_length c s
   = Ok (Z.lor (Z.lor (Z.shiftl b0 16) (Z.shiftl b1 8)) b2,
         set_sock rest (st_pending s) s)).
Proof.
  intros Ha.
  assert (L3 : forall n, n <= 3 -> (lenZ (st_avail s) <? n) = false).
  { intros n Hn. apply Z.ltb_ge. rewrite Ha. repeat rewrite lenZ_cons.
    pose proof (lenZ_nonneg rest). lia. }
  assert (L2 : (lenZ (b1 :: b2 :: rest) <? 2) = false).
  { apply Z.ltb_ge. repeat rewrite lenZ_cons. pose proof (lenZ_nonneg rest). lia. }
  repeat split.
  - unfold tight_jpeg_length, flag. rewrite H. reflexivity.
  - unfold spec_tight_length. rewrite H. reflexivity.
  - intros Hb. unfold tight_jpeg_length, flag.
    apply Z.eqb_neq in Hb. rewrite Hb. cbn [negb].
    unfold bind at 1, bytesAvailable, get. cbn [st_avail set_sock]. rewrite L2.
    unfold bind at 1, ret at 1.
    unfold bind at 1. erewrite read_T_one; [|reflexivity].
    unfold bind at 1. erewrite read_T_one; [|reflexivity].
    reflexivity.
  - intros Hc. unfold tight_basic_length. apply Z.eqb_eq in Hc. rewrite Hc.
    unfold bind at 1, bytesAvailable, get. rewrite (L3 1) by lia.
    unfold bind at 1, ret at 1.
    unfold bind at 1. erewrite read_T_one; [|exact Ha]. reflexivity.
  - intros Hc. unfold tight_basic_length. apply Z.eqb_neq in Hc. rewrite Hc.
    unfold bind at 1, bytesAvailable, get. rewrite (L3 3) by lia.
    unfold bind at 1, ret at 1.
    unfold bind at 1. erewrite read_T_one; [|exact Ha].
    unfold bind at 1. erewrite read_T_one; [|reflexivity].
    unfold bind at 1. erewrite read_T_one; [|reflexivity].
    reflexivity.
Qed.


End TightFields.

(** ** Key events *)



(** ** ZRLE: one decompression per rectangle *)

Section ZrleClaims.

Context {C : Codecs}.

Lemma zrle_wait_loop_enough n avail pending :
  n <= lenZ avail -> zrle_wait_loop n avail pending = (avail, pending, false).
Proof.
  intros H. apply Z.ltb_ge in H. destruct pending; simpl; now rewrite H.
Qed.

(** A rectangle whose compressed block is buffered: the block goes
    through [qUncompress] on its own. *)
Lemma handleZRLEEncoding_payload (s : state) (rect : Rectangle)
    (lb payload rest : list Z) :
  st_avail s = lb ++ payload ++ rest ->
  lenZ lb = 4 -> of_be32 lb = lenZ payload -> 0 < lenZ payload ->
  handleZRLEEncoding rect s
  = zrle_decoded rect (qUncompress payload) (set_sock rest (st_pending s) s).
Proof.
  intros Ha Hlb Hlen Hpos.
  assert (H4 : (lenZ (st_avail s) <? 4) = false).
  { apply Z.ltb_ge. rewrite Ha, lenZ_app.
    pose proof (lenZ_nonneg (payload ++ rest)). lia. }
  unfold handleZRLEEncoding.
  unfold bind at 1, bytesAvailable, get. rewrite H4.
  unfold bind at 1. rewrite (@read_T_app _ _ _ _ _ Hlb Ha).
  rewrite Hlen.
  assert (H0 : (lenZ payload =? 0) = false) by (apply Z.eqb_neq; lia).
  rewrite H0.
  unfold bind at 1, zrle_wait. cbn [st_avail st_pending set_sock].
  rewrite zrle_wait_loop_enough
    by (rewrite lenZ_app; pose proof (lenZ_nonneg rest); lia).
  unfold bind at 1.
  erewrite (@socket_read_app _ _ payload rest); [|reflexivity|reflexivity].
  reflexivity.
Qed.



(** The ZRLE decoder neither reads nor changes the zlib streams of the
    engine. *)
Definition same_zlib (s s' : state) : Prop :=
  st_zlibStream s' = st_zlibStream s /\
  st_zlibStreamActive s' = st_zlibStreamActive s.

Lemma handleZRLEEncoding_same_zlib rect :
  ensures same_zlib (handleZRLEEncoding rect).
Proof.
  apply ensures_handleZRLEEncoding; unfold same_zlib.
  - intros s. split; reflexivity.
  - intros s1 s2 s3 [A1 A2] [B1 B2]. split; congruence.
  - intros s a p. split; reflexivity.
  - intros s w _. split; reflexivity.
  - intros s img _ _. split; reflexivity.
  - intros w _ s a s' H. unfold bind, qCWarning, modify in H.
    rewrite framebufferUpdateRequest_default in H.
    injection H as _ <-. split; reflexivity.
Qed.


End ZrleClaims.

(** ** Pixel formats other than 32 bits per pixel *)

Section Bpp.

Context {C : Codecs}.

Lemma wait_loop_enough n avail pending :
  n <= lenZ avail -> wait_loop n avail pending = Some (avail, pending).
Proof.
  intros H. apply Z.ltb_ge in H. destruct pending; simpl; now rewrite H.
Qed.

(** The Raw half of the rule: with a pixel format that is not 32 bits
    per pixel and the rectangle's bytes buffered, the decoder logs the
    warning and returns at the first pixel; no byte is consumed, no
    pixel is written, nothing is emitted or requested. *)
Lemma handleRawEncoding_unsupported_bpp (s : state) (rect : Rectangle) :
  bitsPerPixel (st_pixelFormat s) <> 32 ->
  0 < rw rect -> 0 < rh rect ->
  rw rect * rh rect * bitsPerPixel (st_pixelFormat s) <= 2147483647 ->
  rw rect * rh rect * bitsPerPixel (st_pixelFormat s) / 8 <= lenZ (st_avail s) ->
  exists s',
    handleRawEncoding rect s = Ok (tt, s') /\
    st_trace s' = st_trace s ++
                  [Warn (W_BppNotSupported (bitsPerPixel (st_pixelFormat s)))] /\
    st_image s' = st_image s /\ st_avail s' = st_avail s.
Proof.
  intros Hbpp Hw Hh Hmax Hav.
  unfold handleRawEncoding.
  unfold bind at 1, get. unfold bind at 1, int_checked.
  apply Z.leb_le in Hmax. rewrite Hmax. unfold ret at 1.
  unfold bind at 1, wait_for_bytes. rewrite (@wait_loop_enough _ _ (st_pending s) Hav).
  destruct (Z.to_nat (rh rect)) as [|nh] eqn:Enh; [lia|].
  destruct (Z.to_nat (rw rect)) as [|nw] eqn:Enw; [lia|].
  cbn [for_]. unfold raw_row at 1. rewrite Enw. cbn [for_].
  unfold raw_pixel at 1. apply Z.eqb_neq in Hbpp.
  cbn [st_pixelFormat set_sock] in *. rewrite Hbpp.
  unfold bind, qCWarning, modify, ret.
  eexists. split; [reflexivity|]. cbn. repeat split; reflexivity.
Qed.

End Bpp.

(** ** Raw: the pixel words *)

Section RawPixels.

Context {C : Codecs}.













End RawPixels.

(** * The theorems at concrete inputs, and what the engine does where the
      specification says otherwise *)

Ltac conjuncts := repeat match goal with |- _ /\ _ => split end.

Ltac by_running := conjuncts; vm_compute; first [reflexivity | discriminate].

(** ** Recovery (C1) *)



(** ** ZRLE stream (C2) *)



(** ** Tight length field (C3) *)

Lemma tight_length_fields_witness :
  st_avail run_length_bytes = [129; 1; 5] /\
  tight_jpeg_length 129 (set_sock [1; 5] (st_pending run_length_bytes)
                                  run_length_bytes)
  = Ok (Z.lor (Z.lor (Z.shiftl (Z.land 129 127) 16) (Z.shiftl 1 8)) 5,
        set_sock [] (st_pending run_length_bytes) run_length_bytes) /\
  tight_basic_length 128 run_length_bytes
  = Ok (Z.lor (Z.lor (Z.shiftl 129 16) (Z.shiftl 1 8)) 5,
        set_sock [] (st_pending run_length_bytes) run_length_bytes).
Proof.
  split; [vm_compute; reflexivity|].
  destruct (@tight_length_fields ToyCodecs run_length_bytes 129 1 5 [] 128
              eq_refl) as (_ & Hjpeg & _ & Hbasic).
  split; [apply Hjpeg|apply Hbasic]; vm_compute; discriminate.
Defined.

(** C3 as stated fails.  On the length bytes 0x81 0x01 the
    specification's scheme gives 129 and leaves the third byte; the
    JPEG branch takes all three bytes and gives 65797; the zlib branch
    under a control byte with bit 7 set gives 8454405, and under one
    with bit 7 clear it gives 129 from the first byte alone... the value
    0x81 as it stands. *)
Lemma tight_length_is_not_the_continuation_scheme :
  spec_tight_length [129; 1; 5] = Some (129, [5]) /\
  tight_jpeg_length 129 (set_sock [1; 5] [] run_length_bytes)
  = Ok (65797, set_sock [] [] run_length_bytes) /\
  tight_basic_length 128 run_length_bytes
  = Ok (8454405, set_sock [] [] run_length_bytes) /\
  tight_basic_length 0 (set_sock [129; 1; 5] [] run_length_bytes)
  = Ok (129, set_sock [1; 5] [] run_length_bytes).
Proof. by_running. Qed.

(** ** Notifications and the next request (C4) *)



(** The Raw decoder, in addition, notifies after every row and writes a
    request of its own when it is done: a 1 x 2 rectangle is notified
    three times and followed by two requests. *)
Lemma raw_rectangle_notified_per_row :
  new_trace run_raw_two_rows (after_update run_raw_two_rows)
  = [Emit (imageChanged 0 0 1 2); Emit (imageChanged 0 0 1 2);
     Write [3]; Write [1]; Write [0; 0; 0; 0; 0; 4; 0; 4];
     Emit (imageChanged 0 0 1 2);
     Write [3]; Write [1]; Write [0; 0; 0; 0; 0; 4; 0; 4]].
Proof. vm_compute. reflexivity. Qed.

(** ** Dimensions (C5) *)



(** ** Version handshake (C6) *)

Lemma version_handshake_witness :
  st_avail run_known_version = RFB_003_008 ++ [] /\
  exists s',
    parseProtocolVersion run_known_version = Ok (tt, s') /\
    st_avail s' = [] /\
    (recognised_version RFB_003_008 = true ->
     st_trace s' = st_trace run_known_version ++
                   [Emit (protocolVersionChanged_sig ProtocolVersion33);
                    Write RFB_003_003] /\
     st_protocolVersion s' = ProtocolVersion33 /\
     st_state s' = SecurityState) /\
    (recognised_version RFB_003_008 = false ->
     st_trace s' = st_trace run_known_version ++
                   [Warn (W_UnsupportedProtocolVersion RFB_003_008)] /\
     st_protocolVersion s' = ProtocolVersionUnknown /\
     st_state s' = st_state run_known_version).
Proof.
  split; [vm_compute; reflexivity|].
  apply (@version_handshake ToyCodecs run_known_version RFB_003_008 []);
    (vm_compute; reflexivity).
Defined.

(** C6 as stated fails.  After the unknown string "RFB 003.889\n" the
    connection has not failed: the client has written nothing and still
    awaits a version; the next [read()] takes the following twelve bytes
    as a version, replies and goes on to the security stage. *)
Lemma unknown_version_does_not_fail_the_connection :
  recognised_version RFB_003_889 = false /\
  st_state (result_state (read run_unknown_version) run_unknown_version)
  = ProtocolVersionState /\
  sent (st_trace (result_state (read run_unknown_version) run_unknown_version))
  = [] /\
  st_state (result_state ((read ;;; read) run_unknown_version) run_unknown_version)
  = SecurityState /\
  sent (st_trace
          (result_state ((read ;;; read) run_unknown_version) run_unknown_version))
  = RFB_003_003.
Proof. by_running. Qed.

(** ** Raw pixel words (C7) *)



(** ** Tight stream reset (C8) *)


(** ** Pixel formats other than 32 bits per pixel (C9) *)

(** C9: where the engine goes wrong.  Under a 16-bit-per-pixel format a
    Hextile rectangle is not aborted and nothing is logged: the tile's
    pixel is filled from the background colour, which was never read
    (it still holds its initial 0), so the white pixel at (1, 2) turns
    black, and the rectangle is notified like any other. *)
Theorem hextile_16bpp_fills_from_unread_background :
  bitsPerPixel (st_pixelFormat run_hextile_16bpp) = 16 /\
  framebufferUpdate run_hextile_16bpp = Ok (tt, after_update run_hextile_16bpp) /\
  pixel (st_image run_hextile_16bpp) 1 2 = white /\
  pixel (st_image (after_update run_hextile_16bpp)) 1 2 = qRgb 0 0 0 /\
  warnings (st_trace (after_update run_hextile_16bpp)) = [] /\
  st_trace (after_update run_hextile_16bpp)
  = [Emit (imageChanged 1 2 1 1);
     Write [3]; Write [1]; Write [0; 0; 0; 0; 0; 4; 0; 4]].
Proof. by_running. Qed.

(** ** Key events (C10) *)


(** * Further properties of the engine *)

(** ** Bytes and words *)

Lemma testbit_255 (n : Z) : 0 <= n -> Z.testbit 255 n = (n <? 8).
Proof.
  intros Hn. change 255 with (Z.ones 8).
  apply Z.testbit_ones_nonneg; lia.
Qed.

Lemma testbit_above (v k n : Z) :
  0 <= v < 2 ^ k -> 0 <= k <= n -> Z.testbit v n = false.
Proof.
  intros Hv Hk.
  destruct (Z.eq_dec v 0) as [->|Hz]; [apply Z.testbit_0_l|].
  apply Z.bits_above_log2; [lia|].
  assert (Z.log2 v < k) by (apply Z.log2_lt_pow2; lia). lia.
Qed.

Lemma testbit_byte (b m : Z) : byte_ok b -> 8 <= m -> Z.testbit b m = false.
Proof. intros Hb Hm. apply (@testbit_above b 8 m); [exact Hb | lia]. Qed.

Lemma testbit_u16 (v m : Z) : 0 <= v < 65536 -> 16 <= m -> Z.testbit v m = false.
Proof. intros Hv Hm. apply (@testbit_above v 16 m); [exact Hv | lia]. Qed.

Lemma testbit_u32 (v m : Z) :
  0 <= v < 4294967296 -> 32 <= m -> Z.testbit v m = false.
Proof. intros Hv Hm. apply (@testbit_above v 32 m); [exact Hv | lia]. Qed.

(** One step of a bit-by-bit comparison, once the position of the bit is
    known relative to the byte boundaries. *)
Ltac bit_step :=
  match goal with
  | |- context [Z.testbit (Z.lor ?a ?b) ?m] => rewrite (Z.lor_spec a b m)
  | |- context [Z.testbit (Z.land ?a ?b) ?m] => rewrite (Z.land_spec a b m)
  | |- context [Z.testbit ?a ?m] => rewrite (Z.testbit_neg_r a m) by lia
  | |- context [Z.testbit (Z.shiftl ?a ?k) ?m] =>
      rewrite (Z.shiftl_spec a k m) by lia
  | |- context [Z.testbit (Z.shiftr ?a ?k) ?m] =>
      rewrite (Z.shiftr_spec a k m) by lia
  | |- context [Z.testbit 255 ?m] => rewrite (@testbit_255 m) by lia
  | |- context [?a <? ?b] =>
      first [ rewrite (proj2 (Z.ltb_lt a b)) by lia
            | rewrite (proj2 (Z.ltb_ge a b)) by lia ]
  | H : byte_ok ?b |- context [Z.testbit ?b ?m] =>
      rewrite (@testbit_byte b m H) by lia
  | H : 0 <= ?v < 65536 |- context [Z.testbit ?v ?m] =>
      rewrite (@testbit_u16 v m H) by lia
  | H : 0 <= ?v < 4294967296 |- context [Z.testbit ?v ?m] =>
      rewrite (@testbit_u32 v m H) by lia
  | |- context [?n - ?k + ?k] => rewrite (Z.sub_add k n)
  | |- context [?n + ?k - ?k] => rewrite (Z.add_simpl_r n k)
  | |- _ => first [ rewrite andb_true_r | rewrite andb_false_r
                  | rewrite orb_false_r | rewrite orb_false_l
                  | rewrite andb_false_l ]
  end.

Ltac bitwise :=
  let n := fresh "n" in
  let Hn := fresh "Hn" in
  apply Z.bits_inj'; intros n Hn;
  assert (n < 8 \/ 8 <= n < 16 \/ 16 <= n < 24 \/ 24 <= n < 32 \/ 32 <= n)
    as [?|[?|[?|[?|?]]]] by lia;
  repeat bit_step; reflexivity.

Lemma byte_land (b : Z) : byte_ok b -> Z.land b 255 = b.
Proof.
  intros Hb. change 255 with (Z.ones 8).
  rewrite Z.land_ones by lia. apply Z.mod_small. exact Hb.
Qed.

Lemma land_255_byte (v : Z) : byte_ok (Z.land v 255).
Proof.
  change 255 with (Z.ones 8). rewrite Z.land_ones by lia.
  apply Z.mod_pos_bound. lia.
Qed.

Lemma be16_bytes (v : Z) : Forall byte_ok (be16 v).
Proof. repeat constructor; apply land_255_byte. Qed.

Lemma be32_bytes (v : Z) : Forall byte_ok (be32 v).
Proof. repeat constructor; apply land_255_byte. Qed.

Lemma of_be16_be16 (v : Z) : 0 <= v < 65536 -> of_be16 (be16 v) = v.
Proof.
  intros Hv. unfold of_be16, be16, nthb. cbn [nth]. bitwise.
Qed.

Lemma be16_of_be16 (a b : Z) :
  byte_ok a -> byte_ok b -> be16 (of_be16 [a; b]) = [a; b].
Proof.
  intros Ha Hb. unfold of_be16, be16, nthb. cbn [nth].
  f_equal; [|f_equal]; bitwise.
Qed.

Lemma of_be16_wrap (v : Z) : of_be16 (be16 v) = wrap16 v.
Proof.
  unfold of_be16, be16, nthb, wrap16. cbn [nth].
  change 65536 with (2 ^ 16). rewrite <- Z.land_ones by lia.
  apply Z.bits_inj'; intros n Hn.
  rewrite (Z.land_spec v (Z.ones 16) n), (Z.testbit_ones_nonneg 16 n) by lia.
  assert (n < 8 \/ 8 <= n < 16 \/ 16 <= n) as [?|[?|?]] by lia;
    repeat bit_step; reflexivity.
Qed.

Lemma wrap16_range (v : Z) : 0 <= wrap16 v < 65536.
Proof. unfold wrap16. apply Z.mod_pos_bound. lia. Qed.

Lemma of_be16_range (a b : Z) :
  byte_ok a -> byte_ok b -> 0 <= of_be16 [a; b] < 65536.
Proof.
  intros Ha Hb.
  assert (E : of_be16 [a; b] = wrap16 (of_be16 [a; b])).
  { unfold of_be16, nthb, wrap16. cbn [nth].
    change 65536 with (2 ^ 16). rewrite <- Z.land_ones by lia.
    apply Z.bits_inj'; intros n Hn.
    rewrite (Z.land_spec _ (Z.ones 16) n), (Z.testbit_ones_nonneg 16 n) by lia.
    assert (n < 8 \/ 8 <= n < 16 \/ 16 <= n) as [?|[?|?]] by lia;
      repeat bit_step; reflexivity. }
  rewrite E. apply wrap16_range.
Qed.

Lemma of_be32_be32 (v : Z) : 0 <= v < 4294967296 -> of_be32 (be32 v) = v.
Proof.
  intros Hv. unfold of_be32, be32, nthb. cbn [nth]. bitwise.
Qed.

(** The low byte of a big-endian word is its last byte. *)
Lemma of_be32_low_byte (b0 b1 b2 b3 : Z) :
  byte_ok b3 -> wrap8 (of_be32 [b0; b1; b2; b3]) = b3.
Proof.
  intros Hb. unfold wrap8, of_be32, nthb. cbn [nth].
  change 256 with (2 ^ 8). rewrite <- Z.land_ones by lia.
  change (Z.ones 8) with 255. bitwise.
Qed.

Lemma Rectangle_of_to_bytes (r : Rectangle) :
  0 <= rx r < 65536 -> 0 <= ry r < 65536 ->
  0 <= rw r < 65536 -> 0 <= rh r < 65536 ->
  Rectangle_of_bytes (Rectangle_to_bytes r) = r.
Proof.
  intros Hx Hy Hw Hh. destruct r as [x y w h]. cbn [rx ry rw rh] in *.
  unfold Rectangle_of_bytes, Rectangle_to_bytes. cbn [rx ry rw rh].
  change (firstn 2 (be16 x ++ be16 y ++ be16 w ++ be16 h)) with (be16 x).
  change (firstn 2 (skipn 2 (be16 x ++ be16 y ++ be16 w ++ be16 h))) with (be16 y).
  change (firstn 2 (skipn 4 (be16 x ++ be16 y ++ be16 w ++ be16 h))) with (be16 w).
  change (firstn 2 (skipn 6 (be16 x ++ be16 y ++ be16 w ++ be16 h))) with (be16 h).
  rewrite !of_be16_be16 by assumption. reflexivity.
Qed.

(** A list of [n] elements, spelled out. *)
Lemma list_of_length_2 {A} (l : list A) :
  lenZ l = 2 -> exists a b, l = [a; b].
Proof.
  destruct l as [|a [|b [|c l]]]; unfold lenZ; cbn [length]; intros H;
    try lia; eauto.
Qed.

Lemma list_of_length_4 {A} (l : list A) :
  lenZ l = 4 -> exists a b c d, l = [a; b; c; d].
Proof.
  destruct l as [|a [|b [|c [|d [|e l]]]]]; unfold lenZ; cbn [length]; intros H;
    try lia; eauto.
Qed.

Lemma PixelFormat_to_of_bytes (bs : list Z) :
  lenZ bs = 16 -> Forall byte_ok bs ->
  PixelFormat_to_bytes (PixelFormat_of_bytes bs) = bs.
Proof.
  intros Hl Hb.
  do 16 (destruct bs as [|? bs]; [unfold lenZ in Hl; cbn [length] in Hl; lia|]).
  destruct bs; [|unfold lenZ in Hl; cbn [length] in Hl; lia].
  repeat match goal with
         | H : Forall _ (_ :: _) |- _ => inversion H; subst; clear H
         end.
  unfold PixelFormat_to_bytes, PixelFormat_of_bytes.
  cbn [bitsPerPixel depth bigEndianFlag trueColourFlag redMax greenMax blueMax
       redShift greenShift blueShift padding1 padding2 padding3
       nthb nth firstn skipn].
  rewrite !be16_of_be16 by assumption. reflexivity.
Qed.

(** ** Relations that do not look at the socket, the trace, the pixels,
       the zlib streams or the wire history *)

Section Blind.

Context {C : Codecs}.

Variable R : state -> state -> Prop.
Hypothesis R_refl : forall s, R s s.
Hypothesis R_trans : forall s1 s2 s3, R s1 s2 -> R s2 s3 -> R s1 s3.
Hypothesis R_sock : forall s a p, R s (set_sock a p s).
Hypothesis R_trace : forall s d, R s (add_trace d s).
Hypothesis R_image :
  forall s img, iw img = iw (st_image s) -> ih img = ih (st_image s) ->
                R s (set_image img s).
Hypothesis R_zlib : forall s z a, R s (set_zlib z a s).
Hypothesis R_wire : forall s r e, R s (add_wire r e s).

Lemma blind_write bytes : ensures R (write bytes).
Proof. intros s a s' H. inversion H. apply R_trace. Qed.

Lemma blind_qCWarning w : ensures R (qCWarning w).
Proof. intros s a s' H. inversion H. apply R_trace. Qed.

Lemma blind_emit e : ensures R (emit e).
Proof. intros s a s' H. inversion H. apply R_trace. Qed.

Lemma blind_request inc rect : ensures R (framebufferUpdateRequest inc rect).
Proof.
  unfold framebufferUpdateRequest.
  repeat (apply ensures_bind; [assumption | | intros ]);
    try apply blind_write; try (apply ensures_get; assumption).
Qed.

Lemma blind_failure w :
  ensures R (qCWarning w ;;; framebufferUpdateRequest true None).
Proof.
  apply ensures_bind; [assumption | apply blind_qCWarning |].
  intros _. apply blind_request.
Qed.

Lemma blind_warn s w : failure_warning w = false -> R s (add_trace [Warn w] s).
Proof. intros _. apply R_trace. Qed.

Lemma blind_failing w :
  failure_warning w = true ->
  ensures R (qCWarning w ;;; framebufferUpdateRequest true None).
Proof. intros _. apply blind_failure. Qed.

Lemma blind_handleZRLEEncoding rect : ensures R (handleZRLEEncoding rect).
Proof.
  exact (@ensures_handleZRLEEncoding C R R_refl R_trans R_sock (@blind_warn)
           R_image (@blind_failing) rect).
Qed.

Lemma blind_handleTightEncoding rect : ensures R (handleTightEncoding rect).
Proof.
  exact (@ensures_handleTightEncoding C R R_refl R_trans R_sock (@blind_warn)
           R_image R_zlib (@blind_failing) rect).
Qed.

Lemma blind_handleHextileEncoding rect : ensures R (handleHextileEncoding rect).
Proof.
  exact (@ensures_handleHextileEncoding C R R_refl R_trans R_sock (@blind_warn)
           R_image rect).
Qed.

Lemma blind_handleRawEncoding rect : ensures R (handleRawEncoding rect).
Proof.
  exact (@ensures_handleRawEncoding C R R_refl R_trans R_sock (@blind_warn)
           R_image (@blind_request true None) rect
           (fun s => R_trace s _)).
Qed.

Lemma blind_framebufferUpdate_rect : ensures R framebufferUpdate_rect.
Proof.
  unfold framebufferUpdate_rect, framebufferUpdate_dispatch.
  apply ensures_bind; [assumption | apply ensures_get; assumption | intros n].
  destruct (n <? 12); [apply ensures_ret; assumption|].
  apply ensures_bind; [assumption | apply ensures_read_T; assumption | intros rb].
  apply ensures_bind; [assumption | apply ensures_read_T; assumption | intros eb].
  apply ensures_bind; [assumption | apply ensures_modify; intros; apply R_wire |].
  intros _.
  apply ensures_bind; [assumption | | intros known ].
  - repeat match goal with
           | |- ensures _ (if ?b then _ else _) => destruct b
           end;
      (apply ensures_bind;
       [ assumption
       | first [ apply blind_handleZRLEEncoding | apply blind_handleTightEncoding
               | apply blind_handleHextileEncoding | apply blind_handleRawEncoding
               | apply blind_qCWarning ]
       | intros; apply ensures_ret; assumption ]).
  - destruct known; [|apply ensures_ret; assumption].
    apply ensures_bind; [assumption | apply blind_emit |].
    intros; apply ensures_ret; assumption.
Qed.

Lemma blind_framebufferUpdate : ensures R framebufferUpdate.
Proof.
  unfold framebufferUpdate, framebufferUpdate_loop.
  apply ensures_bind; [assumption | apply ensures_get; assumption | intros n].
  destruct (n <? 3); [apply ensures_ret; assumption|].
  apply ensures_bind; [assumption | apply ensures_socket_read; assumption |].
  intros _.
  apply ensures_bind; [assumption | apply ensures_read_T; assumption | intros nb].
  apply ensures_bind; [assumption | | intros c].
  - apply ensures_for; [assumption | assumption |].
    intros _. apply blind_framebufferUpdate_rect.
  - destruct c; [apply blind_request | apply ensures_ret; assumption].
Qed.

Lemma blind_parseServerMessages : ensures R parseServerMessages.
Proof.
  unfold parseServerMessages.
  apply ensures_bind; [assumption | apply ensures_get; assumption | intros n].
  destruct (n <? 1); [apply ensures_ret; assumption|].
  apply ensures_bind;
    [assumption | apply ensures_read_u8_init; assumption | intros t].
  destruct (t =? 0); [apply blind_framebufferUpdate | apply blind_qCWarning].
Qed.

End Blind.

Section Negotiation.

Context {C : Codecs}.

Lemma same_negotiation_refl (s : state) : same_negotiation s s.
Proof. repeat split. Qed.

Lemma same_negotiation_trans (s1 s2 s3 : state) :
  same_negotiation s1 s2 -> same_negotiation s2 s3 -> same_negotiation s1 s3.
Proof.
  intros (A1 & A2 & A3) (B1 & B2 & B3).
  repeat split; congruence.
Qed.

(** While it handles server messages the client changes neither what
    was negotiated nor the handshaking state. *)
Lemma parseServerMessages_same_negotiation :
  ensures same_negotiation parseServerMessages.
Proof.
  apply blind_parseServerMessages;
    first [ apply same_negotiation_refl | apply same_negotiation_trans
          | intros; repeat split ].
Qed.

End Negotiation.

(** ** Security handshake *)

Ltac fields :=
  cbn [st_state st_pixelFormat st_avail st_pending st_zlibStream
       st_zlibStreamActive st_protocolVersion st_securityType st_image
       st_frameBufferWidth st_frameBufferHeight st_trace st_wire
       set_state set_pixelFormat set_sock set_zlib set_protocolVersion
       set_securityType set_image set_frameBufferSize add_trace add_wire].

Section SecurityMore.

Context {C : Codecs}.

Lemma bind_of {A B} (m : M A) (k : A -> M B) (s s1 : state) (a : A) :
  m s = Ok (a, s1) -> bind m k s = k a s1.
Proof. intros H. unfold bind. rewrite H. reflexivity. Qed.

Lemma bytesAvailable_of (s : state) :
  bytesAvailable s = Ok (lenZ (st_avail s), s).
Proof. reflexivity. Qed.

Lemma to_int8_byte (t : Z) :
  byte_ok t -> to_int8 t = if t <? 128 then t else t - 256.
Proof.
  intros Ht. unfold to_int8, wrap8. rewrite Z.mod_small by exact Ht.
  reflexivity.
Qed.

Lemma to_int8_word (b0 b1 b2 t : Z) :
  byte_ok t -> to_int8 (of_be32 [b0; b1; b2; t]) = to_int8 t.
Proof.
  intros Ht. unfold to_int8. rewrite (@of_be32_low_byte b0 b1 b2 t Ht).
  unfold wrap8. rewrite Z.mod_small by exact Ht. reflexivity.
Qed.

(** [parseSecurity33] hands the low byte of the word, read as a signed
    byte, to [setSecurityType]. *)
Lemma parseSecurity33_word (s : state) (b0 b1 b2 t : Z) (rest : list Z) :
  st_avail s = [b0; b1; b2; t] ++ rest -> byte_ok t ->
  parseSecurity33 s
  = setSecurityType (to_int8 t) (set_sock rest (st_pending s) s).
Proof.
  intros Ha Ht. unfold parseSecurity33.
  rewrite (@bind_of _ _ _ _ _ _ _ (bytesAvailable_of s)).
  assert (H4 : (lenZ (st_avail s) <? 4) = false).
  { apply Z.ltb_ge. rewrite Ha, lenZ_app. pose proof (lenZ_nonneg rest).
    change (lenZ [b0; b1; b2; t]) with 4. lia. }
  rewrite H4.
  rewrite (@bind_of _ _ _ _ _ _ _ (@read_T_app _ 4 [b0; b1; b2; t] rest s eq_refl Ha)).
  rewrite (to_int8_word b0 b1 b2 Ht). reflexivity.
Qed.

Lemma setSecurityType_changed (s : state) (t : Z) :
  st_securityType s <> t ->
  setSecurityType t s
  = securityTypeChanged t
      (add_trace [Emit (securityTypeChanged_sig t)] (set_securityType t s)).
Proof.
  intros Hne. unfold setSecurityType, bind, get, modify, emit.
  apply Z.eqb_neq in Hne. rewrite Hne. reflexivity.
Qed.

Lemma setSecurityType_same (s : state) (t : Z) :
  st_securityType s = t -> setSecurityType t s = Ok (tt, s).
Proof.
  intros He. unfold setSecurityType, bind, get.
  apply Z.eqb_eq in He. rewrite He. reflexivity.
Qed.

Lemma securityTypeChanged_unsupported (t : Z) :
  t <> SecurityTypeUnknwon -> t <> SecurityTypeInvalid -> t <> SecurityTypeNone ->
  securityTypeChanged t = qCWarning (W_SecurityNotSupported t).
Proof.
  intros H1 H2 H3. unfold securityTypeChanged.
  apply Z.eqb_neq in H1, H2, H3. rewrite H1, H2, H3. reflexivity.
Qed.

(** X1.  Under protocol 3.3 the security type is the low byte of the
    32-bit word the server sends: whatever the three upper bytes are, a
    word whose last byte is 1 selects "None".  The client records the
    type, emits [securityTypeChanged], writes the ClientInit byte 1
    (shared) and awaits ServerInit. *)
Theorem security33_low_byte_decides (s : state) (b0 b1 b2 : Z)
    (rest : list Z) :
  st_state s = SecurityState ->
  st_protocolVersion s = ProtocolVersion33 ->
  st_securityType s = SecurityTypeUnknwon ->
  st_avail s = [b0; b1; b2; 1] ++ rest ->
  exists s',
    read s = Ok (tt, s') /\
    st_state s' = ServerInitState /\
    st_securityType s' = SecurityTypeNone /\
    st_avail s' = rest /\
    st_trace s' = st_trace s ++
                  [Emit (securityTypeChanged_sig SecurityTypeNone); Write [1]].
Proof.
  intros Hst Hv Hsec Ha.
  unfold read. rewrite (@bind_of _ _ (get st_state) _ s s (st_state s) eq_refl), Hst.
  unfold parseSecurity.
  rewrite (@bind_of _ _ (get st_protocolVersion) _ s s (st_protocolVersion s) eq_refl), Hv.
  rewrite (@parseSecurity33_word s b0 b1 b2 1 rest Ha) by (unfold byte_ok; lia).
  change (to_int8 1) with SecurityTypeNone.
  rewrite setSecurityType_changed
    by (cbn [st_securityType set_sock]; rewrite Hsec; discriminate).
  unfold securityTypeChanged.
  change (SecurityTypeNone =? SecurityTypeUnknwon) with false.
  change (SecurityTypeNone =? SecurityTypeInvalid) with false.
  change (SecurityTypeNone =? SecurityTypeNone) with true.
  cbv iota.
  unfold bind at 1, get at 1.
  cbn [st_protocolVersion add_trace set_securityType set_sock].
  rewrite Hv.
  eexists. split; [reflexivity|].
  cbn [st_state st_securityType st_avail st_trace set_state add_trace
       set_securityType set_sock].
  repeat split. now rewrite <- app_assoc.
Qed.

(** X2.  A security type the client does not support (anything but
    "invalid" 0, "None" 1 and the byte 255) is recorded and signalled,
    then only logged: nothing is written to the server and the client
    stays in [SecurityState].  When the server offers the same type
    again the word is consumed without any trace at all. *)
Theorem security33_unsupported_type (s : state) (b0 b1 b2 t : Z)
    (rest : list Z) :
  st_state s = SecurityState ->
  st_protocolVersion s = ProtocolVersion33 ->
  st_securityType s = SecurityTypeUnknwon ->
  st_avail s = [b0; b1; b2; t] ++ rest ->
  2 <= t < 255 ->
  exists s',
    read s = Ok (tt, s') /\
    st_state s' = SecurityState /\
    st_securityType s' = to_int8 t /\
    st_avail s' = rest /\
    st_trace s' = st_trace s ++
                  [Emit (securityTypeChanged_sig (to_int8 t));
                   Warn (W_SecurityNotSupported (to_int8 t))] /\
    forall c0 c1 c2 rest',
      read (set_sock ([c0; c1; c2; t] ++ rest') (st_pending s') s')
      = Ok (tt, set_sock rest' (st_pending s') s').
Proof.
  intros Hst Hv Hsec Ha Ht.
  assert (Hb : byte_ok t) by (unfold byte_ok; lia).
  assert (Hr : to_int8 t <> SecurityTypeUnknwon /\
               to_int8 t <> SecurityTypeInvalid /\
               to_int8 t <> SecurityTypeNone).
  { rewrite (to_int8_byte Hb).
    unfold SecurityTypeUnknwon, SecurityTypeInvalid, SecurityTypeNone.
    destruct (Z.ltb_spec t 128); lia. }
  destruct Hr as (H1 & H2 & H3).
  unfold read. rewrite (@bind_of _ _ (get st_state) _ s s (st_state s) eq_refl), Hst.
  unfold parseSecurity.
  rewrite (@bind_of _ _ (get st_protocolVersion) _ s s (st_protocolVersion s) eq_refl), Hv.
  rewrite (@parseSecurity33_word s b0 b1 b2 t rest Ha Hb).
  rewrite setSecurityType_changed
    by (cbn [st_securityType set_sock]; rewrite Hsec; congruence).
  rewrite (securityTypeChanged_unsupported H1 H2 H3).
  eexists. split; [reflexivity|].
  cbn [st_state st_securityType st_avail st_trace st_pending set_state
       add_trace set_securityType set_sock].
  split; [exact Hst|]. split; [reflexivity|]. split; [reflexivity|].
  split; [now rewrite <- app_assoc|].
  intros c0 c1 c2 rest'.
  unfold read.
  match goal with
  | |- bind (get st_state) _ ?x = _ =>
      rewrite (@bind_of _ _ (get st_state) _ x x SecurityState) by (unfold get; fields; now rewrite Hst)
  end.
  unfold parseSecurity.
  match goal with
  | |- bind (get st_protocolVersion) _ ?x = _ =>
      rewrite (@bind_of _ _ (get st_protocolVersion) _ x x ProtocolVersion33)
        by (unfold get; fields; now rewrite Hv)
  end.
  erewrite parseSecurity33_word; [|reflexivity|exact Hb].
  rewrite setSecurityType_same by reflexivity.
  reflexivity.
Qed.

(** X3.  [parseSecurityReason] logs the reason text when all of it is
    buffered.  When the four length bytes are there but the text is not
    complete, the length bytes are consumed all the same and nothing is
    logged: the length is lost. *)
Theorem parseSecurityReason_cases (s : state) (lb more : list Z) :
  st_avail s = lb ++ more -> lenZ lb = 4 ->
  (lenZ more < of_be32 lb ->
   parseSecurityReason s = Ok (tt, set_sock more (st_pending s) s)) /\
  (forall text rest,
     more = text ++ rest -> lenZ text = of_be32 lb ->
     parseSecurityReason s
     = Ok (tt, add_trace [Warn (W_SecurityFailureReason text)]
                 (set_sock rest (st_pending s) s))).
Proof.
  intros Ha Hl.
  assert (H4 : (lenZ (st_avail s) <? 4) = false).
  { apply Z.ltb_ge. rewrite Ha, lenZ_app. pose proof (lenZ_nonneg more). lia. }
  assert (Hrun : parseSecurityReason s =
                 (n' <- bytesAvailable ;;
                  if n' <? of_be32 lb then ret tt
                  else text <- socket_read (of_be32 lb) ;;
                       qCWarning (W_SecurityFailureReason text))
                   (set_sock more (st_pending s) s)).
  { unfold parseSecurityReason.
    rewrite (@bind_of _ _ _ _ _ _ _ (bytesAvailable_of s)), H4.
    rewrite (@bind_of _ _ _ _ _ _ _ (@read_T_app _ 4 lb more s Hl Ha)). reflexivity. }
  rewrite Hrun. split.
  - intros Hlt. rewrite (@bind_of _ _ _ _ _ _ _ (bytesAvailable_of _)).
    cbn [st_avail set_sock]. apply Z.ltb_lt in Hlt. rewrite Hlt. reflexivity.
  - intros text rest Hm Ht. rewrite (@bind_of _ _ _ _ _ _ _ (bytesAvailable_of _)).
    cbn [st_avail set_sock].
    assert (Hge : (lenZ more <? of_be32 lb) = false).
    { apply Z.ltb_ge. rewrite Hm, lenZ_app. pose proof (lenZ_nonneg rest). lia. }
    rewrite Hge.
    rewrite (@bind_of _ _ _ _ _ _ _
               (@socket_read_app _ (of_be32 lb) text rest
                  (set_sock more (st_pending s) s) Ht Hm)).
    reflexivity.
Qed.

Lemma read_security_types_all (types : list Z) :
  forall (acc rest : list Z) (s : state),
    st_avail s = types ++ rest ->
    read_security_types (length types) acc s
    = Ok (acc ++ types, set_sock rest (st_pending s) s).
Proof.
  induction types as [|t types IH]; intros acc rest s Ha.
  - cbn [length read_security_types]. unfold ret.
    rewrite app_nil_r. cbn [app] in Ha.
    destruct s; cbn in Ha; subst; reflexivity.
  - cbn [length read_security_types].
    assert (H1 : read_u8_init 0 s = Ok (t, set_sock (types ++ rest) (st_pending s) s)).
    { unfold read_u8_init. rewrite Ha. reflexivity. }
    rewrite (@bind_of _ _ _ _ _ _ _ H1).
    rewrite (IH (acc ++ [t]) rest (set_sock (types ++ rest) (st_pending s) s) eq_refl).
    rewrite <- app_assoc. reflexivity.
Qed.

(** X4.  Under 3.7 and 3.8 the client picks "None" whenever it occurs
    anywhere in the server's list.  Under 3.7 it writes the chosen type
    and then, without waiting for any reply, the ClientInit byte; under
    3.8 it writes the chosen type and moves to [SecurityResultState]. *)
Theorem security37_none_wins (s : state) (types rest : list Z) :
  st_state s = SecurityState ->
  st_securityType s = SecurityTypeUnknwon ->
  st_avail s = lenZ types :: types ++ rest ->
  0 < lenZ types < 256 ->
  In SecurityTypeNone types ->
  (st_protocolVersion s = ProtocolVersion37 ->
   exists s',
     read s = Ok (tt, s') /\ st_state s' = ServerInitState /\
     st_avail s' = rest /\
     st_trace s' = st_trace s ++
                   [Emit (securityTypeChanged_sig SecurityTypeNone);
                    Write [1]; Write [1]]) /\
  (st_protocolVersion s = ProtocolVersion38 ->
   exists s',
     read s = Ok (tt, s') /\ st_state s' = SecurityResultState /\
     st_avail s' = rest /\
     st_trace s' = st_trace s ++
                   [Emit (securityTypeChanged_sig SecurityTypeNone);
                    Write [1]]).
Proof.
  intros Hst Hsec Ha Hn Hin.
  assert (Hrun : parseSecurity37 s =
                 setSecurityType SecurityTypeNone
                   (set_sock rest (st_pending s) s)).
  { unfold parseSecurity37.
    rewrite (@bind_of _ _ _ _ _ _ _ (bytesAvailable_of s)).
    assert (H1 : (lenZ (st_avail s) <? 1) = false).
    { apply Z.ltb_ge. rewrite Ha, lenZ_cons. pose proof (lenZ_nonneg (types ++ rest)).
      lia. }
    rewrite H1.
    assert (Hc : read_u8_init 0 s
                 = Ok (lenZ types, set_sock (types ++ rest) (st_pending s) s)).
    { unfold read_u8_init. rewrite Ha. reflexivity. }
    rewrite (@bind_of _ _ _ _ _ _ _ Hc).
    assert (H0 : (lenZ types =? 0) = false) by (apply Z.eqb_neq; lia).
    rewrite H0.
    rewrite (@bind_of _ _ _ _ _ _ _ (bytesAvailable_of _)). cbn [st_avail set_sock].
    assert (Hge : (lenZ (types ++ rest) <? lenZ types) = false).
    { apply Z.ltb_ge. rewrite lenZ_app. pose proof (lenZ_nonneg rest). lia. }
    rewrite Hge. unfold lenZ at 1. rewrite Nat2Z.id.
    rewrite (@bind_of _ _ _ _ _ _ _ (@read_security_types_all types [] rest
                  (set_sock (types ++ rest) (st_pending s) s) eq_refl)).
    cbn [app].
    assert (He : existsb (Z.eqb SecurityTypeNone) types = true).
    { apply existsb_exists. exists SecurityTypeNone. split; [exact Hin|].
      apply Z.eqb_refl. }
    rewrite He. reflexivity. }
  assert (Hread : forall v, (v = ProtocolVersion37 \/ v = ProtocolVersion38) ->
            st_protocolVersion s = v ->
            read s = securityTypeChanged SecurityTypeNone
                       (add_trace [Emit (securityTypeChanged_sig SecurityTypeNone)]
                          (set_securityType SecurityTypeNone
                             (set_sock rest (st_pending s) s)))).
  { intros v Hv Hs. unfold read.
    rewrite (@bind_of _ _ (get st_state) _ s s (st_state s) eq_refl), Hst.
    unfold parseSecurity.
    rewrite (@bind_of _ _ (get st_protocolVersion) _ s s (st_protocolVersion s) eq_refl), Hs.
    destruct Hv as [-> | ->]; rewrite Hrun;
      apply setSecurityType_changed;
      cbn [st_securityType set_sock]; rewrite Hsec; discriminate. }
  split; intros Hv.
  - rewrite (Hread _ (or_introl eq_refl) Hv).
    unfold securityTypeChanged.
    change (SecurityTypeNone =? SecurityTypeUnknwon) with false.
    change (SecurityTypeNone =? SecurityTypeInvalid) with false.
    change (SecurityTypeNone =? SecurityTypeNone) with true.
    cbv iota. unfold bind at 1, get at 1.
    cbn [st_protocolVersion add_trace set_securityType set_sock].
    rewrite Hv.
    eexists. split; [reflexivity|].
    cbn [st_state st_securityType st_avail st_trace set_state add_trace
         set_securityType set_sock].
    repeat split. now rewrite <- !app_assoc.
  - rewrite (Hread _ (or_intror eq_refl) Hv).
    unfold securityTypeChanged.
    change (SecurityTypeNone =? SecurityTypeUnknwon) with false.
    change (SecurityTypeNone =? SecurityTypeInvalid) with false.
    change (SecurityTypeNone =? SecurityTypeNone) with true.
    cbv iota. unfold bind at 1, get at 1.
    cbn [st_protocolVersion add_trace set_securityType set_sock].
    rewrite Hv.
    eexists. split; [reflexivity|].
    cbn [st_state st_securityType st_avail st_trace set_state add_trace
         set_securityType set_sock].
    repeat split. now rewrite <- !app_assoc.
Qed.

End SecurityMore.

(** ** The handshake as a whole *)

Section Moves.

Context {C : Codecs}.

Variable T : HandshakingState -> Prop.

Lemma moves_refl (s : state) : moves_into T s s.
Proof. split; left; reflexivity. Qed.

Lemma moves_trans (s1 s2 s3 : state) :
  moves_into T s1 s2 -> moves_into T s2 s3 -> moves_into T s1 s3.
Proof.
  intros [A1 A2] [B1 B2]. split.
  - destruct B1 as [B1|B1]; [|right; exact B1].
    rewrite B1. exact A1.
  - destruct B2 as [B2|B2]; [|right; exact B2].
    rewrite B2. exact A2.
Qed.

Lemma moves_sock (s : state) a p : moves_into T s (set_sock a p s).
Proof. split; left; reflexivity. Qed.

Lemma moves_trace (s : state) d : moves_into T s (add_trace d s).
Proof. split; left; reflexivity. Qed.

Lemma moves_state (s : state) st : T st -> moves_into T s (set_state st s).
Proof. intros H. split; [right; exact H | left; reflexivity]. Qed.

Ltac moves :=
  repeat
    (cbv beta zeta;
     lazymatch goal with
     | |- ensures _ (bind _ _) => apply (@ensures_bind _ _ moves_trans); [ | intros ]
     | |- ensures _ (ret _) => apply (@ensures_ret _ _ moves_refl)
     | |- ensures _ (get _) => apply (@ensures_get _ _ moves_refl)
     | |- ensures _ bytesAvailable => apply (@ensures_get _ _ moves_refl)
     | |- ensures _ (socket_read _) => apply (@ensures_socket_read _ _ moves_sock)
     | |- ensures _ (read_T _) => apply (@ensures_read_T _ _ moves_sock)
     | |- ensures _ (read_u8_init _) =>
         apply (@ensures_read_u8_init _ _ moves_refl moves_sock)
     | |- ensures _ (write _) => apply (@blind_write _ _ moves_trace)
     | |- ensures _ (emit _) => apply (@blind_emit _ _ moves_trace)
     | |- ensures _ (qCWarning _) => apply (@blind_qCWarning _ _ moves_trace)
     | |- ensures _ (framebufferUpdateRequest _ _) =>
         apply (@blind_request _ _ moves_refl moves_trans moves_trace)
     | |- ensures _ (if ?b then _ else _) => destruct b
     | |- ensures _ (match ?x with _ => _ end) => destruct x
     | |- ensures _ (modify _) => apply ensures_modify; intros
     end).

Lemma moves_parseSecurityReason : ensures (moves_into T) parseSecurityReason.
Proof. unfold parseSecurityReason. moves. Qed.

Lemma moves_clientInit :
  T ServerInitState -> ensures (moves_into T) clientInit.
Proof. intros HT. unfold clientInit. moves. apply moves_state. exact HT. Qed.

Lemma moves_setSecurityType (t : Z) :
  T ClientInitState -> T ServerInitState -> T SecurityResultState ->
  ensures (moves_into T) (setSecurityType t).
Proof.
  intros H1 H2 H3. unfold setSecurityType, securityTypeChanged.
  moves; try (split; left; reflexivity); try (apply moves_state; assumption);
    try apply moves_parseSecurityReason; try (apply moves_clientInit; assumption).
Qed.

Lemma moves_read_security_types (n : nat) :
  forall acc, ensures (moves_into T) (read_security_types n acc).
Proof.
  induction n as [|n IH]; intros acc; cbn [read_security_types]; moves.
  apply IH.
Qed.

Lemma moves_parseSecurity :
  T ClientInitState -> T ServerInitState -> T SecurityResultState ->
  ensures (moves_into T) parseSecurity.
Proof.
  intros H1 H2 H3. unfold parseSecurity, parseSecurity33, parseSecurity37.
  moves; try (apply moves_setSecurityType; assumption);
    try apply moves_parseSecurityReason; try apply moves_read_security_types.
Qed.

Lemma moves_parseProtocolVersion :
  T SecurityState -> ensures (moves_into T) parseProtocolVersion.
Proof.
  intros HT.
  assert (Hset : ensures (moves_into T) (setProtocolVersion ProtocolVersion33)).
  { unfold setProtocolVersion, protocolVersionChanged. moves.
    - split; [left; reflexivity | right; reflexivity].
    - apply moves_state. exact HT. }
  unfold parseProtocolVersion. moves; exact Hset.
Qed.

Lemma moves_parserServerInit :
  T WaitingState -> ensures (moves_into T) parserServerInit.
Proof.
  intros HT. unfold parserServerInit, setPixelFormat, setEncodings.
  cbn [write_encodings].
  moves; try (split; left; reflexivity). apply moves_state. exact HT.
Qed.

Lemma moves_parseServerMessages : ensures (moves_into T) parseServerMessages.
Proof.
  apply blind_parseServerMessages;
    first [ apply moves_refl | apply moves_trans | apply moves_sock
          | apply moves_trace | intros; split; left; reflexivity ].
Qed.

End Moves.

Section Session.

Context {C : Codecs}.

(** Where a call of [read] can take the handshaking state, and what it
    can do to the protocol version. *)
Lemma read_moves (s s' : state) :
  read s = Ok (tt, s') ->
  moves_into
    (fun st =>
       match st_state s with
       | ProtocolVersionState => st = SecurityState
       | SecurityState =>
           st = ClientInitState \/ st = ServerInitState \/
           st = SecurityResultState
       | ServerInitState => st = WaitingState
       | _ => False
       end) s s'.
Proof.
  unfold read, bind at 1, get at 1.
  destruct (st_state s) eqn:Hst; intros H.
  - refine (@moves_parseProtocolVersion _ _ _ s tt s' H). reflexivity.
  - refine (@moves_parseSecurity _ _ _ _ _ s tt s' H); auto.
  - unfold bind, bytesAvailable, get, socket_read, ret in H.
    inversion H. split; left; reflexivity.
  - unfold bind, bytesAvailable, get, socket_read, ret in H.
    inversion H. split; left; reflexivity.
  - refine (@moves_parserServerInit _ _ _ s tt s' H). reflexivity.
  - exact (@moves_parseServerMessages _ _ s tt s' H).
Qed.

(** X5.  No call of [read] ever moves the handshake backwards: in the
    numbering of [enum HandshakingState] the state after the call is at
    least the state before it. *)
Theorem read_never_steps_back (s s' : state) :
  read s = Ok (tt, s') ->
  HandshakingState_value (st_state s) <= HandshakingState_value (st_state s').
Proof.
  intros H. destruct (@read_moves s s' H) as [[Hs|Hs] _].
  - rewrite Hs. lia.
  - destruct (st_state s); cbn [HandshakingState_value];
      try contradiction; try (rewrite Hs; cbn [HandshakingState_value]; lia).
    destruct Hs as [Hs|[Hs|Hs]]; rewrite Hs; cbn [HandshakingState_value]; lia.
Qed.

(** X6.  The receive path never selects protocol 3.7 or 3.8: after any
    call of [read] the protocol version is what it was before, or 3.3. *)
Theorem read_selects_only_33 (s s' : state) :
  read s = Ok (tt, s') ->
  st_protocolVersion s' = st_protocolVersion s \/
  st_protocolVersion s' = ProtocolVersion33.
Proof. intros H. exact (proj2 (@read_moves s s' H)). Qed.

Lemma dropZ_all {A} (l : list A) : dropZ (lenZ l) l = [].
Proof. unfold dropZ, lenZ. rewrite Nat2Z.id. apply skipn_all. Qed.

Lemma read_drains (s : state) :
  st_state s = SecurityResultState \/ st_state s = ClientInitState ->
  read s = Ok (tt, set_sock [] (st_pending s) s).
Proof.
  intros H. unfold read, bind at 1, get at 1.
  assert (E : (n <- bytesAvailable ;; socket_read n ;;; ret tt) s
              = Ok (tt, set_sock [] (st_pending s) s)).
  { unfold bind, bytesAvailable, get, socket_read, ret.
    rewrite dropZ_all. reflexivity. }
  destruct H as [H|H]; rewrite H; exact E.
Qed.

(** X7.  Nothing handles [SecurityResultState] (or [ClientInitState]):
    once there, every [readyRead] just empties the socket's buffer.
    Whatever the server sends afterwards, and in however many pieces,
    the client writes nothing, emits nothing and never leaves the
    state. *)
Theorem security_result_is_never_read (chunks : list (list Z)) :
  forall s : state,
    st_state s = SecurityResultState \/ st_state s = ClientInitState ->
    exists s',
      on_readyRead_all chunks s = Ok (tt, s') /\
      st_state s' = st_state s /\
      st_trace s' = st_trace s /\
      (chunks <> [] -> st_avail s' = []).
Proof.
  induction chunks as [|chunk chunks IH]; intros s Hs.
  - exists s. repeat split. intros H. now elim H.
  - cbn [on_readyRead_all]. unfold on_readyRead.
    unfold bind at 1. unfold bind at 1, modify at 1.
    rewrite read_drains by (fields; exact Hs).
    fields.
    destruct (IH (set_sock [] (st_pending s) s)) as (s' & Hrun & H1 & H2 & H3).
    { fields. exact Hs. }
    exists s'. split; [exact Hrun|].
    split; [exact H1|]. split; [exact H2|].
    intros _. destruct chunks as [|c chunks'].
    + cbn [on_readyRead_all] in Hrun. inversion Hrun. reflexivity.
    + apply H3. discriminate.
Qed.

(** X8.  A new connection restarts the handshake but keeps what the
    previous session left in the engine: the four Tight zlib streams
    with their history, the framebuffer image, its recorded size and the
    pixel format are exactly as before; the security type is unknown
    again and the client waits for a version string or, if one was
    already buffered, for the security type. *)
Theorem on_connected_keeps_session_data (s : state) :
  exists s',
    on_connected s = Ok (tt, s') /\
    st_zlibStream s' = st_zlibStream s /\
    st_zlibStreamActive s' = st_zlibStreamActive s /\
    st_image s' = st_image s /\
    st_frameBufferWidth s' = st_frameBufferWidth s /\
    st_frameBufferHeight s' = st_frameBufferHeight s /\
    st_pixelFormat s' = st_pixelFormat s /\
    st_securityType s' = SecurityTypeUnknwon /\
    (st_state s' = ProtocolVersionState \/ st_state s' = SecurityState).
Proof.
  unfold on_connected, read, parseProtocolVersion, setProtocolVersion,
    setSecurityType, securityTypeChanged, protocolVersionChanged.
  change (SecurityTypeUnknwon =? SecurityTypeUnknwon) with true.
  cbv [bind get modify emit write ret bytesAvailable socket_read qCWarning].
  fields.
  destruct (st_protocolVersion s); cbn [ProtocolVersion_eqb]; fields;
    destruct (st_securityType s =? SecurityTypeUnknwon) eqn:Hsec; fields;
    try (apply Z.eqb_eq in Hsec);
    destruct (lenZ (st_avail s) <? 12); fields;
    repeat match goal with
           | |- context [if ?b then _ else _] => destruct b
           end;
    fields; eexists; (split; [reflexivity|]); fields;
    repeat split; auto.
Qed.

End Session.

(** ** ServerInit and the requests *)

Section ServerInitMore.

Context {C : Codecs}.


(** X9.  When the 24 fixed bytes of ServerInit are buffered but the
    server's name is not complete, [parserServerInit] has already
    consumed the header and applied it (size recorded and signalled,
    image replaced, pixel format stored) when it returns: it writes
    nothing, stays in its state and leaves only the part of the name in
    the buffer, so the header is not seen again when the rest arrives. *)
Theorem parserServerInit_name_pending (s : state)
    (wb hb pfb nb part : list Z) :
  st_avail s = wb ++ hb ++ pfb ++ nb ++ part ->
  lenZ wb = 2 -> lenZ hb = 2 -> lenZ pfb = 16 -> lenZ nb = 4 ->
  lenZ part < of_be32 nb ->
  exists s',
    parserServerInit s = Ok (tt, s') /\
    st_state s' = st_state s /\
    st_avail s' = part /\
    st_trace s' = st_trace s ++
                  [Emit (framebufferSizeChanged (of_be16 wb) (of_be16 hb))] /\
    st_frameBufferWidth s' = of_be16 wb /\
    st_frameBufferHeight s' = of_be16 hb /\
    st_image s' = QImage_new_white (of_be16 wb) (of_be16 hb) /\
    st_pixelFormat s' = PixelFormat_of_bytes pfb.
Proof.
  intros Ha Hw Hh Hp Hn Hpart.
  assert (Hlen : (lenZ (st_avail s) <? 2 + 2 + 16 + 4) = false).
  { apply Z.ltb_ge. rewrite Ha. repeat rewrite lenZ_app.
    pose proof (lenZ_nonneg part). lia. }
  unfold parserServerInit.
  rewrite (@bind_of _ _ _ _ _ _ _ _ (bytesAvailable_of s)), Hlen.
  rewrite (@bind_of _ _ _ _ _ _ _ _ (@read_T_app _ 2 wb _ s Hw Ha)).
  rewrite (@bind_of _ _ _ _ _ _ _ _
             (@read_T_app _ 2 hb _ (set_sock (hb ++ pfb ++ nb ++ part)
                                        (st_pending s) s) Hh eq_refl)).
  unfold bind at 1, modify at 1. unfold bind at 1, emit at 1, modify at 1.
  unfold bind at 1, modify at 1.
  unfold bind at 1. erewrite (@read_T_app _ _ _ _ _ Hp); [|reflexivity].
  unfold bind at 1, modify at 1.
  unfold bind at 1. erewrite (@read_T_app _ _ _ _ _ Hn); [|reflexivity].
  unfold bind at 1, bytesAvailable at 1, get at 1. fields.
  apply Z.ltb_lt in Hpart. rewrite Hpart.
  eexists. split; [reflexivity|]. fields. repeat split.
Qed.

(** X10.  What the client sends in answer to a complete ServerInit, byte
    for byte: SetPixelFormat carrying the sixteen bytes of the server's
    own pixel format unchanged, SetEncodings listing Tight, ZRLE, Hextile
    and Raw in this order, and a non-incremental request for the whole
    framebuffer; fifty bytes in all. *)
Theorem server_init_reply_bytes (s : state)
    (wb hb pfb nb name rest : list Z) :
  st_avail s = wb ++ hb ++ pfb ++ nb ++ name ++ rest ->
  lenZ wb = 2 -> lenZ hb = 2 -> lenZ pfb = 16 -> lenZ nb = 4 ->
  lenZ name = of_be32 nb ->
  Forall byte_ok wb -> Forall byte_ok hb -> Forall byte_ok pfb ->
  exists s',
    parserServerInit s = Ok (tt, s') /\
    st_state s' = WaitingState /\
    st_avail s' = rest /\
    sent (new_trace s s')
    = [0; 32; 32; 32] ++ pfb
      ++ [2; 32; 0; 4; 0; 0; 0; 7; 0; 0; 0; 16; 0; 0; 0; 5; 0; 0; 0; 0]
      ++ [3; 0; 0; 0; 0; 0] ++ wb ++ hb.
Proof.
  intros Ha Hw Hh Hp Hn Hname Bw Bh Bp.
  rewrite (@parserServerInit_complete _ s wb hb pfb nb name rest Ha Hw Hh Hp Hn Hname).
  eexists. split; [reflexivity|]. fields.
  split; [reflexivity|]. split; [reflexivity|].
  unfold new_trace. fields.
  rewrite skipn_app, Nat.sub_diag, skipn_all. cbn [app skipn].
  rewrite (PixelFormat_to_of_bytes Hp Bp).
  destruct (list_of_length_2 wb Hw) as (w1 & w0 & ->).
  destruct (list_of_length_2 hb Hh) as (h1 & h0 & ->).
  inversion Bw as [|? ? Bw1 Bw']; subst. inversion Bw' as [|? ? Bw0 _]; subst.
  inversion Bh as [|? ? Bh1 Bh']; subst. inversion Bh' as [|? ? Bh0 _]; subst.
  unfold Rectangle_to_bytes. cbn [rx ry rw rh].
  rewrite !be16_of_be16 by assumption.
  cbn [sent app]. rewrite <- !app_assoc. reflexivity.
Qed.

(** X11.  A FramebufferUpdateRequest is always the ten bytes 3, the
    incremental flag, and a rectangle in big-endian 16-bit fields.  The
    rectangle is the one given, each field reduced modulo 65536, unless
    it is empty (or none is given): then it is the whole framebuffer as
    recorded from ServerInit.  Nothing but the trace changes. *)
Theorem framebufferUpdateRequest_message (s : state) (incremental : bool)
    (rect : option Rectangle) :
  let whole := mkRect 0 0 (st_frameBufferWidth s) (st_frameBufferHeight s) in
  let chosen :=
    match rect with
    | Some r => if (rw r <=? 0) || (rh r <=? 0) then whole else r
    | None => whole
    end in
  exists payload,
    framebufferUpdateRequest incremental rect s
    = Ok (tt, add_trace [Write [3]; Write [if incremental then 1 else 0];
                         Write payload] s) /\
    lenZ payload = 8 /\
    Rectangle_of_bytes payload
    = mkRect (wrap16 (rx chosen)) (wrap16 (ry chosen))
             (wrap16 (rw chosen)) (wrap16 (rh chosen)).
Proof.
  intros whole chosen.
  exists (Rectangle_to_bytes chosen). split; [|split].
  - unfold framebufferUpdateRequest, bind, write, modify, get.
    fields. subst chosen whole.
    destruct s; unfold add_trace; fields. rewrite <- !app_assoc. reflexivity.
  - reflexivity.
  - unfold Rectangle_of_bytes, Rectangle_to_bytes.
    change (firstn 2 (be16 (rx chosen) ++ be16 (ry chosen) ++ be16 (rw chosen)
                      ++ be16 (rh chosen))) with (be16 (rx chosen)).
    change (firstn 2 (skipn 2 (be16 (rx chosen) ++ be16 (ry chosen)
                               ++ be16 (rw chosen) ++ be16 (rh chosen))))
      with (be16 (ry chosen)).
    change (firstn 2 (skipn 4 (be16 (rx chosen) ++ be16 (ry chosen)
                               ++ be16 (rw chosen) ++ be16 (rh chosen))))
      with (be16 (rw chosen)).
    change (firstn 2 (skipn 6 (be16 (rx chosen) ++ be16 (ry chosen)
                               ++ be16 (rw chosen) ++ be16 (rh chosen))))
      with (be16 (rh chosen)).
    rewrite !of_be16_wrap. reflexivity.
Qed.

End ServerInitMore.

(** ** Painting blocks of pixels *)


Section Running.

Context {C : Codecs}.

Lemma bind_get {A B} (f : state -> A) (k : A -> M B) (s : state) :
  bind (get f) k s = k (f s) s.
Proof. reflexivity. Qed.

Lemma bind_ret {A B} (a : A) (k : A -> M B) (s : state) :
  bind (ret a) k s = k a s.
Proof. reflexivity. Qed.


Lemma bind_bytesAvailable {B} (k : Z -> M B) (s : state) :
  bind bytesAvailable k s = k (lenZ (st_avail s)) s.
Proof. reflexivity. Qed.

Lemma bind_assoc {A B D} (m : M A) (f : A -> M B) (g : B -> M D) (s : state) :
  bind (bind m f) g s = bind m (fun a => bind (f a) g) s.
Proof. unfold bind. destruct (m s) as [[a s1]| |]; reflexivity. Qed.











End Running.

(** ** Hextile and ZRLE tiles *)

Lemma in_block_spec (x0 y0 w h X Y : Z) :
  in_block x0 y0 w h X Y = true <-> (x0 <= X < x0 + w /\ y0 <= Y < y0 + h).
Proof.
  unfold in_block. rewrite !andb_true_iff, !Z.leb_le, !Z.ltb_lt. lia.
Qed.

Lemma in_block_false (x0 y0 w h X Y : Z) :
  in_block x0 y0 w h X Y = false -> ~ (x0 <= X < x0 + w /\ y0 <= Y < y0 + h).
Proof.
  intros H Hin. apply in_block_spec in Hin. congruence.
Qed.


Lemma trips_one (n step : Z) : 0 < n <= step -> trips n step = 1%nat.
Proof.
  intros H. unfold trips.
  replace ((n + step - 1) / step) with 1; [reflexivity|].
  apply (Z.div_unique _ _ 1 (n - 1)); [left; lia | lia].
Qed.


Section Tiles.

Context {C : Codecs}.

Ltac run H := rewrite (@bind_of _ _ _ _ _ _ _ _ H).





Lemma quiet_warn (s s0 : state) (w : warning) :
  quiet_since s s0 -> quiet_since s (add_trace [Warn w] s0).
Proof.
  intros (d0 & T0 & W0 & E0). exists (d0 ++ [Warn w]). fields.
  rewrite T0, app_assoc, writes_app, emits_app, W0, E0. repeat split.
Qed.



Lemma buf_bytes_at (pre bs post : list Z) (off n : Z) (s : state) :
  lenZ pre = off -> lenZ bs = n ->
  buf_bytes (pre ++ bs ++ post) off n s = Ok (bs, s).
Proof.
  intros Hpre Hbs. unfold buf_bytes.
  assert (H : (0 <=? off) && (off + n <=? lenZ (pre ++ bs ++ post)) = true).
  { rewrite !lenZ_app. pose proof (lenZ_nonneg pre). pose proof (lenZ_nonneg post).
    apply andb_true_iff. split; apply Z.leb_le; lia. }
  rewrite H. rewrite (dropZ_app pre (bs ++ post) Hpre).
  rewrite (takeZ_app bs post Hbs). reflexivity.
Qed.

Lemma buf_u8_at (pre post : list Z) (b off : Z) (s : state) :
  lenZ pre = off -> buf_u8 (pre ++ b :: post) off s = Ok (b, s).
Proof.
  intros Hpre. unfold buf_u8.
  run (@buf_bytes_at pre [b] post off 1 s Hpre eq_refl). reflexivity.
Qed.


(** X14.  A ZRLE tile in one of the run-length subencodings (any
    subencoding byte other than 0, 1 and 2) is not decoded: the
    rectangle of one tile leaves every pixel as it was and one warning
    is logged.  No request is written, so no recovery is asked for
    although the rectangle was not drawn. *)
Theorem zrle_run_length_tile_skipped (s : state) (rect : Rectangle)
    (lb payload rest tail : list Z) (sub : Z) :
  0 < rw rect <= 64 -> 0 < rh rect <= 64 ->
  st_avail s = lb ++ payload ++ rest ->
  lenZ lb = 4 -> of_be32 lb = lenZ payload -> 0 < lenZ payload ->
  qUncompress payload = sub :: tail -> 3 <= sub ->
  handleZRLEEncoding rect s
  = Ok (tt, add_trace [Warn (if sub =? 3 then W_ZrleRlePalette
                             else W_ZrlePlainRle)]
              (set_sock rest (st_pending s) s)).
Proof.
  intros Hw Hh Ha Hlb Hlen Hpos Hq Hsub.
  set (s0 := set_sock rest (st_pending s) s).
  set (pf := st_pixelFormat s) in *.
  set (data := sub :: tail).
  assert (Hdata : lenZ data = 1 + lenZ tail) by apply lenZ_cons.
  pose proof (lenZ_nonneg tail) as Hnn.
  assert (Htile : zrle_tile rect pf data 0 (Z.min 64 (rh rect - 0)) 0
                    (Z.min 64 (rw rect - 0)) 0 s0
                  = Ok ((Next, 0 + 1),
                        add_trace [Warn (if sub =? 3 then W_ZrleRlePalette
                                         else W_ZrlePlainRle)] s0)).
  { unfold zrle_tile. cbv zeta.
    rewrite Z.geb_leb.
    assert (G1 : (lenZ data <=? 0) = false) by (apply Z.leb_gt; lia).
    rewrite G1.
    run (@buf_u8_at [] tail sub 0 s0 eq_refl).
    assert (E0 : (sub =? 0) = false) by (apply Z.eqb_neq; lia).
    assert (E1 : (sub =? 1) = false) by (apply Z.eqb_neq; lia).
    assert (E2 : (sub =? 2) = false) by (apply Z.eqb_neq; lia).
    rewrite E0, E1, E2.
    destruct (sub =? 3); reflexivity. }
  rewrite (@handleZRLEEncoding_payload _ s rect lb payload rest Ha Hlb Hlen Hpos).
  rewrite Hq. fold data. fold s0.
  unfold zrle_decoded, data. fold data. unfold zrle_tiles.
  rewrite bind_get. cbv zeta.
  rewrite (trips_one Hh), (trips_one Hw). cbn [for_acc].
  change (st_pixelFormat s0) with pf.
  rewrite !bind_assoc. run Htile. cbn [fst snd]. reflexivity.
Qed.

End Tiles.

(** ** Tight *)

Section TightMore.

Context {C : Codecs}.

Ltac run H := rewrite (@bind_of _ _ _ _ _ _ _ _ H).


Lemma lenZ_takeZ_le {A} (k : Z) (l : list A) : 0 <= k -> lenZ (takeZ k l) <= k.
Proof.
  intros Hk. unfold lenZ, takeZ. rewrite length_firstn. lia.
Qed.

Lemma takeZ_dropZ {A} (k : Z) (l : list A) : takeZ k l ++ dropZ k l = l.
Proof. unfold takeZ, dropZ. apply firstn_skipn. Qed.


Lemma read_loop_exact (fuel : nat) :
  forall (len total : Z) (buf : list Z) (s : state) (r : list Z) (s' : state),
    read_loop fuel len total buf s = Ok (Some r, s') ->
    lenZ buf = total -> total <= len -> len - total <= Z.of_nat fuel ->
    lenZ r = len /\
    r ++ st_avail s' ++ concat (st_pending s')
    = buf ++ st_avail s ++ concat (st_pending s).
Proof.
  induction fuel as [|fuel IH]; intros len total buf s r s' H Hb Ht Hf.
  - cbn [read_loop] in H. inversion H; subst. split; [lia | reflexivity].
  - cbn [read_loop] in H. revert H.
    destruct (Z.ltb_spec total len) as [Hlt|Hge]; intros H.
    + rewrite bind_bytesAvailable in H.
      assert (Hw : exists s1,
                 (((if (lenZ (st_avail s) <? 1) && true
                    then waitForReadyRead ;;; ret tt else ret tt) : M unit) s
                  = Ok (tt, s1)) /\
                 st_avail s1 ++ concat (st_pending s1)
                 = st_avail s ++ concat (st_pending s)).
      { destruct ((lenZ (st_avail s) <? 1) && true).
        - unfold bind, waitForReadyRead, ret.
          destruct (st_pending s) as [|c pend] eqn:Ep.
          + exists s. split; [reflexivity|]. rewrite Ep. reflexivity.
          + eexists. split; [reflexivity|]. fields.
            cbn [concat]. rewrite <- app_assoc. reflexivity.
        - exists s. split; reflexivity. }
      destruct Hw as (s1 & Hw1 & Hw2).
      rewrite (@bind_of _ _ _ _ _ _ _ _ Hw1) in H.
      unfold bind at 1, socket_read at 1 in H.
      set (chunk := takeZ (len - total) (st_avail s1)) in *.
      revert H.
      destruct (Z.leb_spec (lenZ chunk) 0) as [Hz|Hz]; intros H;
        [discriminate H|].
      apply IH in H.
      * destruct H as [H1 H2]. split; [exact H1|].
        rewrite H2. fields. rewrite <- app_assoc.
        rewrite (app_assoc chunk). unfold chunk.
        rewrite takeZ_dropZ, Hw2. reflexivity.
      * rewrite lenZ_app. lia.
      * pose proof (@lenZ_takeZ_le _ (len - total) (st_avail s1)). fold chunk in H0.
        lia.
      * lia.
    + inversion H; subst. split; [lia | reflexivity].
Qed.

(** X15.  When the loop that collects a Tight payload succeeds it has
    read exactly the announced number of bytes, however the bytes were
    split over arrivals, and no byte of the stream is lost or
    reordered: what was read, followed by what is still buffered and
    still to arrive, is the stream as it was. *)
Theorem read_payload_exact (s s' : state) (len : Z) (r : list Z) :
  read_payload len s = Ok (Some r, s') ->
  0 <= len ->
  lenZ r = len /\
  r ++ st_avail s' ++ concat (st_pending s')
  = st_avail s ++ concat (st_pending s).
Proof.
  intros H Hlen. unfold read_payload in H.
  apply (@read_loop_exact (Z.to_nat len) len 0 [] s r s' H);
    [reflexivity | lia | lia].
Qed.






End TightMore.

(** ** No decoder paints outside its rectangle *)

Section Ranges.

Context {C : Codecs}.

Variable R : state -> state -> Prop.
Hypothesis R_refl : forall s, R s s.
Hypothesis R_trans : forall s1 s2 s3, R s1 s2 -> R s2 s3 -> R s1 s3.

(** A loop whose body is only known to behave for the indices the loop
    reaches. *)
Lemma ensures_for_range (n : nat) :
  forall (i step : Z) (body : Z -> M ctl),
    0 <= step ->
    (forall j, i <= j <= i + (Z.of_nat n - 1) * step -> ensures R (body j)) ->
    ensures R (for_ n i step body).
Proof.
  induction n as [|n IH]; intros i step body Hs H; cbn [for_].
  - apply ensures_ret. exact R_refl.
  - apply (@ensures_bind _ _ R_trans).
    + apply H. nia.
    + intros c. destruct c.
      * apply IH; [exact Hs|]. intros j Hj. apply H. nia.
      * apply ensures_ret. exact R_refl.
Qed.

Lemma ensures_for_acc_range {A} (n : nat) :
  forall (i step : Z) (body : Z -> A -> M (ctl * A)) (a : A),
    0 <= step ->
    (forall j b, i <= j <= i + (Z.of_nat n - 1) * step -> ensures R (body j b)) ->
    ensures R (for_acc n i step body a).
Proof.
  induction n as [|n IH]; intros i step body a Hs H; cbn [for_acc].
  - apply ensures_ret. exact R_refl.
  - apply (@ensures_bind _ _ R_trans).
    + apply H. nia.
    + intros r. destruct (fst r).
      * apply IH; [exact Hs|]. intros j b Hj. apply H. nia.
      * apply ensures_ret. exact R_refl.
Qed.

End Ranges.

Section Locality.

Context {C : Codecs}.

Variable rect : Rectangle.

Lemma keeps_refl (s : state) : keeps_outside rect s s.
Proof. repeat split. Qed.

Lemma keeps_trans (s1 s2 s3 : state) :
  keeps_outside rect s1 s2 -> keeps_outside rect s2 s3 ->
  keeps_outside rect s1 s3.
Proof.
  intros (A1 & A2 & A3) (B1 & B2 & B3). split; [congruence|].
  split; [congruence|]. intros X Y H. rewrite (B3 X Y H). apply A3. exact H.
Qed.

Lemma keeps_sock (s : state) a p : keeps_outside rect s (set_sock a p s).
Proof. repeat split. Qed.

Lemma keeps_trace (s : state) d : keeps_outside rect s (add_trace d s).
Proof. repeat split. Qed.

Lemma keeps_warn (s : state) (w : warning) :
  failure_warning w = false -> keeps_outside rect s (add_trace [Warn w] s).
Proof. intros _. apply keeps_trace. Qed.

Lemma keeps_zlib (s : state) z a : keeps_outside rect s (set_zlib z a s).
Proof. repeat split. Qed.

Lemma keeps_setPixel (x y c : Z) :
  (rx rect <= x < rx rect + rw rect /\ ry rect <= y < ry rect + rh rect) ->
  ensures (keeps_outside rect) (setPixel x y c).
Proof.
  intros Hin s a s' H. unfold setPixel in H.
  destruct (in_image (st_image s) x y); inversion H; subst;
    [|apply keeps_trace].
  split; [reflexivity|]. split; [reflexivity|].
  intros X Y Hout. fields. unfold pixel, put_pixel. cbn [ipx].
  destruct (Z.eqb_spec X x) as [->|]; [|reflexivity].
  destruct (Z.eqb_spec Y y) as [->|]; [|reflexivity].
  apply in_block_false in Hout. tauto.
Qed.

Ltac head_of t := lazymatch t with ?f _ => head_of f | _ => t end.

Ltac inside :=
  repeat match goal with
         | |- context [Z.land ?a ?b] =>
             lazymatch goal with
             | H : 0 <= Z.land a b |- _ => fail
             | _ => assert (0 <= Z.land a b)
                      by (apply Z.land_nonneg; right; lia)
             end
         end;
  lia.

Ltac loc :=
  repeat
    (cbv beta zeta;
     lazymatch goal with
     | |- ensures _ (bind _ _) =>
         apply (@ensures_bind _ _ keeps_trans); [ | intros ]
     | |- ensures _ (for_ _ _ _ _) =>
         apply (@ensures_for_range _ _ keeps_refl keeps_trans); [lia | intros ]
     | |- ensures _ (for_acc _ _ _ _ _) =>
         apply (@ensures_for_acc_range _ _ keeps_refl keeps_trans);
         [lia | intros ]
     | |- ensures _ (if ?b then _ else _) => destruct b
     | |- ensures _ (match ?x with _ => _ end) => destruct x
     | |- ensures _ (ret _) => apply (@ensures_ret _ _ keeps_refl)
     | |- ensures _ undef => apply ensures_undef
     | |- ensures _ (get _) => apply (@ensures_get _ _ keeps_refl)
     | |- ensures _ bytesAvailable => apply (@ensures_get _ _ keeps_refl)
     | |- ensures _ (read_T _) => apply (@ensures_read_T _ _ keeps_sock)
     | |- ensures _ (socket_read _) =>
         apply (@ensures_socket_read _ _ keeps_sock)
     | |- ensures _ (read_u8_init _) =>
         apply (@ensures_read_u8_init _ _ keeps_refl keeps_sock)
     | |- ensures _ waitForReadyRead =>
         apply (@ensures_waitForReadyRead _ _ keeps_refl keeps_sock)
     | |- ensures _ (wait_for_bytes _) =>
         apply (@ensures_wait_for_bytes _ _ keeps_sock)
     | |- ensures _ (zrle_wait _) =>
         apply (@ensures_zrle_wait _ _ keeps_trans keeps_sock keeps_warn)
     | |- ensures _ (int_checked _) =>
         apply (@ensures_int_checked _ _ keeps_refl)
     | |- ensures _ (buf_bytes _ _ _) =>
         apply (@ensures_buf_bytes _ _ keeps_refl)
     | |- ensures _ (buf_u8 _ _) =>
         apply (@ensures_buf_u8 _ _ keeps_refl keeps_trans)
     | |- ensures _ (qCWarning _) => apply (@blind_qCWarning _ _ keeps_trace)
     | |- ensures _ (emit _) => apply (@blind_emit _ _ keeps_trace)
     | |- ensures _ (write _) => apply (@blind_write _ _ keeps_trace)
     | |- ensures _ (framebufferUpdateRequest _ _) =>
         apply (@blind_request _ _ keeps_refl keeps_trans keeps_trace)
     | |- ensures _ (modify (set_zlib _ _)) =>
         apply (@ensures_set_zlib _ _ keeps_zlib)
     | |- ensures _ (read_loop _ _ _ _) =>
         apply (@ensures_read_loop _ _ keeps_refl keeps_trans keeps_sock)
     | |- ensures _ (decompressTightData _ _ _) =>
         apply (@ensures_decompressTightData _ _ keeps_refl keeps_trans
                  keeps_warn keeps_zlib)
     | |- ensures _ (setPixel _ _ _) => apply keeps_setPixel; inside
     | |- ensures _ ?m => let h := head_of m in progress unfold h
     end).

Lemma keeps_handleRawEncoding :
  ensures (keeps_outside rect) (handleRawEncoding rect).
Proof. loc. Qed.

Lemma keeps_handleHextileEncoding :
  ensures (keeps_outside rect) (handleHextileEncoding rect).
Proof. loc. Qed.

Lemma keeps_handleZRLEEncoding :
  ensures (keeps_outside rect) (handleZRLEEncoding rect).
Proof. loc. Qed.

Lemma keeps_tight_basic (c : Z) :
  ensures (keeps_outside rect) (tight_basic rect c).
Proof. loc. Qed.

(** X18.  The Raw, Hextile and ZRLE decoders and the zlib branch of the
    Tight decoder never change a pixel outside the rectangle they decode
    (and never change the size of the image), whatever bytes the server
    sends: tiles are cut to the rectangle and Hextile subrectangles are
    cut to their tile. *)
Theorem decoders_paint_inside_rectangle (s s' : state) :
  handleRawEncoding rect s = Ok (tt, s') \/
  handleHextileEncoding rect s = Ok (tt, s') \/
  handleZRLEEncoding rect s = Ok (tt, s') \/
  (exists c, tight_basic rect c s = Ok (tt, s')) ->
  keeps_outside rect s s'.
Proof.
  intros [H|[H|[H|[c H]]]].
  - exact (@keeps_handleRawEncoding s tt s' H).
  - exact (@keeps_handleHextileEncoding s tt s' H).
  - exact (@keeps_handleZRLEEncoding s tt s' H).
  - exact (@keeps_tight_basic c s tt s' H).
Qed.

End Locality.

(** ** Waiting for data that does not come *)

Section Waits.

Context {C : Codecs}.

Ltac run H := rewrite (@bind_of _ _ _ _ _ _ _ _ H).

Lemma wait_loop_starved (n : Z) (pending : list (list Z)) :
  forall avail : list Z,
    lenZ avail + lenZ (concat pending) < n ->
    wait_loop n avail pending = None.
Proof.
  induction pending as [|c pending IH]; intros avail H; cbn [wait_loop].
  - cbn [concat] in H. change (lenZ (@nil Z)) with 0 in H.
    assert (E : (lenZ avail <? n) = true) by (apply Z.ltb_lt; lia).
    rewrite E. reflexivity.
  - cbn [concat] in H. rewrite lenZ_app in H.
    pose proof (lenZ_nonneg c). pose proof (lenZ_nonneg (concat pending)).
    assert (E : (lenZ avail <? n) = true) by (apply Z.ltb_lt; lia).
    rewrite E. apply IH. rewrite lenZ_app. lia.
Qed.

(** X19.  The Raw decoder waits for the whole rectangle without any
    time limit: when the bytes buffered and still to arrive are fewer
    than the rectangle needs, [handleRawEncoding] never returns. *)
Theorem raw_waits_forever (s : state) (rect : Rectangle) :
  rw rect * rh rect * bitsPerPixel (st_pixelFormat s) <= 2147483647 ->
  lenZ (st_avail s) + lenZ (concat (st_pending s))
  < rw rect * rh rect * bitsPerPixel (st_pixelFormat s) / 8 ->
  handleRawEncoding rect s = Blocked.
Proof.
  intros Hmax Hshort. unfold handleRawEncoding.
  rewrite bind_get. unfold int_checked.
  apply Z.leb_le in Hmax. rewrite Hmax, bind_ret.
  unfold bind at 1, wait_for_bytes.
  rewrite (@wait_loop_starved _ _ _ Hshort). reflexivity.
Qed.

Lemma zrle_wait_loop_starved (n : Z) (pending : list (list Z)) :
  forall avail : list Z,
    lenZ avail + lenZ (concat pending) < n ->
    zrle_wait_loop n avail pending = (avail ++ concat pending, [], true).
Proof.
  induction pending as [|c pending IH]; intros avail H; cbn [zrle_wait_loop].
  - cbn [concat] in H. change (lenZ (@nil Z)) with 0 in H.
    assert (E : (lenZ avail <? n) = true) by (apply Z.ltb_lt; lia).
    rewrite E. cbn [concat]. rewrite app_nil_r. reflexivity.
  - cbn [concat] in H. rewrite lenZ_app in H.
    pose proof (lenZ_nonneg c). pose proof (lenZ_nonneg (concat pending)).
    assert (E : (lenZ avail <? n) = true) by (apply Z.ltb_lt; lia).
    rewrite E. rewrite IH by (rewrite lenZ_app; lia).
    cbn [concat]. rewrite <- app_assoc. reflexivity.
Qed.

Lemma takeZ_short {A} (n : Z) (l : list A) : lenZ l <= n -> takeZ n l = l.
Proof.
  intros H. unfold takeZ. apply firstn_all2. unfold lenZ in H. lia.
Qed.

Lemma dropZ_short {A} (n : Z) (l : list A) : lenZ l <= n -> dropZ n l = [].
Proof.
  intros H. unfold dropZ. apply skipn_all2. unfold lenZ in H. lia.
Qed.

(** X20.  The ZRLE decoder gives up waiting after a time-out but does
    not give up the rectangle: when fewer bytes come than the length
    field announces, it logs the time-out, takes every byte that did
    come as the block, leaving the socket empty, and hands this
    truncated block to [qUncompress] as if it were complete. *)
Theorem zrle_timeout_uses_truncated_block (s : state) (rect : Rectangle)
    (lb part : list Z) :
  st_avail s = lb ++ part -> lenZ lb = 4 ->
  lenZ part + lenZ (concat (st_pending s)) < of_be32 lb ->
  handleZRLEEncoding rect s
  = zrle_decoded rect (qUncompress (part ++ concat (st_pending s)))
      (add_trace [Warn W_ZrleTimeout] (set_sock [] [] s)).
Proof.
  intros Ha Hlb Hshort.
  pose proof (lenZ_nonneg part) as Hp.
  pose proof (lenZ_nonneg (concat (st_pending s))) as Hq.
  assert (H4 : (lenZ (st_avail s) <? 4) = false).
  { apply Z.ltb_ge. rewrite Ha, lenZ_app. lia. }
  unfold handleZRLEEncoding.
  rewrite bind_bytesAvailable, H4.
  run (@read_T_app _ 4 lb part s Hlb Ha).
  assert (H0 : (of_be32 lb =? 0) = false) by (apply Z.eqb_neq; lia).
  rewrite H0.
  unfold bind at 1, zrle_wait. fields.
  rewrite (@zrle_wait_loop_starved _ _ _ Hshort).
  unfold qCWarning, modify.
  unfold bind at 1, socket_read. fields.
  assert (Hall : lenZ (part ++ concat (st_pending s)) <= of_be32 lb)
    by (rewrite lenZ_app; lia).
  rewrite (@takeZ_short _ _ _ Hall), (@dropZ_short _ _ _ Hall).
  reflexivity.
Qed.

End Waits.

(** ** Input events *)

Lemma flag_bit (v k : Z) : 0 <= k -> flag v (2 ^ k) = Z.testbit v k.
Proof.
  intros Hk. unfold flag.
  destruct (Z.testbit v k) eqn:E.
  - destruct (Z.eqb_spec (Z.land v (2 ^ k)) 0) as [H0|]; [|reflexivity].
    assert (Hb : Z.testbit (Z.land v (2 ^ k)) k = true).
    { rewrite Z.land_spec, E, Z.pow2_bits_true by lia. reflexivity. }
    rewrite H0, Z.bits_0 in Hb. discriminate Hb.
  - assert (H0 : Z.land v (2 ^ k) = 0).
    { apply Z.bits_inj'. intros i Hi.
      rewrite Z.land_spec, Z.bits_0, Z.pow2_bits_eqb by lia.
      destruct (Z.eqb_spec k i) as [<-|]; [|apply andb_false_r].
      rewrite E. reflexivity. }
    rewrite H0. reflexivity.
Qed.

(** X21.  A pointer event on a connected socket is the six bytes 5,
    button mask, x and y as big-endian 16-bit values.  The mask puts
    Qt's left button on bit 0, its middle button (Qt value 4) on bit 1
    and its right button (Qt value 2) on bit 2, and drops every other
    button.  The coordinates are not clamped to the framebuffer: each is
    sent modulo 65536, so a position left of or above the widget wraps
    around.  Without a connected socket nothing is sent. *)
Theorem pointerEvent_message (e : QMouseEvent) :
  exists mask,
    sent (pointerEvent ConnectedSocket e)
    = [5; mask] ++ be16 (wrap16 (ev_x e)) ++ be16 (wrap16 (ev_y e)) /\
    0 <= mask < 8 /\
    Z.testbit mask 0 = Z.testbit (ev_buttons e) 0 /\
    Z.testbit mask 1 = Z.testbit (ev_buttons e) 2 /\
    Z.testbit mask 2 = Z.testbit (ev_buttons e) 1 /\
    of_be16 (be16 (wrap16 (ev_x e))) = ev_x e mod 65536 /\
    of_be16 (be16 (wrap16 (ev_y e))) = ev_y e mod 65536 /\
    sent (pointerEvent Unconnected e) = [] /\
    sent (pointerEvent NoSocket e) = [].
Proof.
  unfold pointerEvent. cbv zeta.
  change LeftButton with (2 ^ 0). change MiddleButton with (2 ^ 2).
  change RightButton with (2 ^ 1).
  rewrite !flag_bit by lia.
  assert (Hx : forall v, of_be16 (be16 (wrap16 v)) = v mod 65536).
  { intros v. rewrite of_be16_wrap. unfold wrap16. apply Z.mod_mod. lia. }
  destruct (Z.testbit (ev_buttons e) 0), (Z.testbit (ev_buttons e) 2),
    (Z.testbit (ev_buttons e) 1);
    eexists; (split; [reflexivity|]); (split; [cbn; lia|]);
    repeat split; try apply Hx.
Qed.

Lemma keyMap_holds_keyList (k v : Z) :
  In (k, v) keyList -> QMap_value keyMap k = Some v /\ of_be32 (be32 v) = v.
Proof.
  intros Hin. unfold keyList in Hin. cbn [In] in Hin.
  repeat (destruct Hin as [Hin|Hin];
          [inversion Hin; subst; split; vm_compute; reflexivity|]).
  contradiction.
Qed.

(** X22.  Which keysym a key event carries.  For every key listed in
    the constructor's table the table's keysym is sent, whatever text
    the event has, and the four bytes sent decode to it; for a key not
    in the table with a text, the first UTF-16 code unit of the text is
    sent as it is. *)
Theorem keyEvent_keysym (uninit : Z) (e : QKeyEvent) :
  (forall k v,
     In (k, v) keyList -> ev_key e = k ->
     sent (keyEvent ConnectedSocket uninit e)
     = [4; downFlag_of e; 32; 32] ++ be32 v /\
     of_be32 (be32 v) = v) /\
  (forall c t,
     QMap_value keyMap (ev_key e) = None -> ev_text e = c :: t ->
     sent (keyEvent ConnectedSocket uninit e)
     = [4; downFlag_of e; 32; 32] ++ be32 c).
Proof.
  split.
  - intros k v Hin Hk. destruct (@keyMap_holds_keyList k v Hin) as [Hv Hr].
    split; [|exact Hr].
    unfold keyEvent, downFlag_of. rewrite Hk, Hv. reflexivity.
  - intros c t Hn Ht. unfold keyEvent, downFlag_of. rewrite Hn, Ht. reflexivity.
Qed.

(** ** More on single rectangles and single messages *)

Section MoreDecoding.

Context {C : Codecs}.

Ltac run H := rewrite (@bind_of _ _ _ _ _ _ _ _ H).


(** X24.  A Raw rectangle at a depth other than 32 bits per pixel is
    given up at its first pixel, but its pixel data stay in the socket's
    buffer unread: the decoder logs the warning, changes no pixel,
    writes no request, and the update loop still emits [imageChanged]
    for the rectangle and goes on, so the bytes of the rectangle are
    what it takes for the next header. *)
Theorem raw_unsupported_depth_leaves_data_unread (s : state)
    (rect : Rectangle) :
  bitsPerPixel (st_pixelFormat s) <> 32 ->
  0 < rw rect -> 0 < rh rect ->
  rw rect * rh rect * bitsPerPixel (st_pixelFormat s) <= 2147483647 ->
  rw rect * rh rect * bitsPerPixel (st_pixelFormat s) / 8 <= lenZ (st_avail s) ->
  exists s',
    framebufferUpdate_dispatch rect RawEncoding s = Ok (Next, s') /\
    st_trace s' = st_trace s ++
                  [Warn (W_BppNotSupported (bitsPerPixel (st_pixelFormat s)));
                   Emit (imageChanged (rx rect) (ry rect) (rw rect) (rh rect))] /\
    st_image s' = st_image s /\
    st_avail s' = st_avail s.
Proof.
  intros Hbpp Hw Hh Hmax Hlen.
  destruct (@handleRawEncoding_unsupported_bpp _ s rect Hbpp Hw Hh Hmax Hlen)
    as (s1 & Hrun & Ht & Hi & Hav).
  exists (add_trace [Emit (imageChanged (rx rect) (ry rect) (rw rect) (rh rect))]
            s1).
  split; [|split; [|split]].
  - unfold framebufferUpdate_dispatch.
    change (RawEncoding =? ZRLE) with false.
    change (RawEncoding =? Tight) with false.
    change (RawEncoding =? Hextile) with false.
    change (RawEncoding =? RawEncoding) with true. cbv iota.
    rewrite !bind_assoc. run Hrun. rewrite bind_ret.
    reflexivity.
  - fields. rewrite Ht, <- app_assoc. reflexivity.
  - fields. exact Hi.
  - fields. exact Hav.
Qed.

(** X25.  In [WaitingState] one call of [read] looks at one message
    only.  A FramebufferUpdate with no rectangles is answered by one
    incremental request for the whole framebuffer, and whatever is
    buffered behind it is left for a later call; any message type
    other than 0 costs exactly its type byte and a warning, so the rest
    of such a message is read as message types later. *)
Theorem one_server_message_per_read (s : state) :
  st_state s = WaitingState ->
  (forall pad rest,
     st_avail s = 0 :: pad :: 0 :: 0 :: rest ->
     read s = Ok (tt, add_trace (request_actions (st_frameBufferWidth s)
                                                 (st_frameBufferHeight s))
                        (set_sock rest (st_pending s) s))) /\
  (forall t rest,
     st_avail s = t :: rest -> t <> 0 ->
     read s = Ok (tt, add_trace [Warn (W_UnknownMessageType t)]
                        (set_sock rest (st_pending s) s))).
Proof.
  intros Hst.
  assert (Hread : read s = parseServerMessages s).
  { unfold read. rewrite bind_get, Hst. reflexivity. }
  rewrite Hread. unfold parseServerMessages. rewrite bind_bytesAvailable.
  split.
  - intros pad rest Ha.
    assert (L1 : (lenZ (st_avail s) <? 1) = false).
    { apply Z.ltb_ge. rewrite Ha, lenZ_cons.
      pose proof (lenZ_nonneg (pad :: 0 :: 0 :: rest)). lia. }
    rewrite L1.
    assert (R1 : read_u8_init 0 s
                 = Ok (0, set_sock (pad :: 0 :: 0 :: rest) (st_pending s) s)).
    { unfold read_u8_init. rewrite Ha. reflexivity. }
    run R1. change (0 =? 0) with true. cbv iota.
    unfold framebufferUpdate. rewrite bind_bytesAvailable. fields.
    assert (L3 : (lenZ (pad :: 0 :: 0 :: rest) <? 3) = false).
    { apply Z.ltb_ge. rewrite !lenZ_cons. pose proof (lenZ_nonneg rest). lia. }
    rewrite L3.
    erewrite (@bind_of _ _ _ (socket_read 1));
      [|apply (@socket_read_app _ 1 [pad] (0 :: 0 :: rest)); reflexivity].
    erewrite (@bind_of _ _ _ (read_T 2));
      [|apply (@read_T_app _ 2 [0; 0] rest); reflexivity].
    change (of_be16 [0; 0]) with 0. unfold framebufferUpdate_loop.
    change (Z.to_nat 0) with 0%nat. cbn [for_]. rewrite bind_ret.
    rewrite framebufferUpdateRequest_default. reflexivity.
  - intros t rest Ha Ht.
    assert (L1 : (lenZ (st_avail s) <? 1) = false).
    { apply Z.ltb_ge. rewrite Ha, lenZ_cons. pose proof (lenZ_nonneg rest). lia. }
    rewrite L1.
    assert (R1 : read_u8_init 0 s = Ok (t, set_sock rest (st_pending s) s)).
    { unfold read_u8_init. rewrite Ha. reflexivity. }
    run R1. apply Z.eqb_neq in Ht. rewrite Ht. reflexivity.
Qed.

End MoreDecoding.

(** ** The properties above on concrete inputs *)

Ltac side :=
  first [ reflexivity
        | vm_compute; repeat split; first [reflexivity | discriminate] ].

Lemma security33_low_byte_decides_witness :
  exists s',
    read (handshaking_state (C := ToyCodecs) SecurityState ProtocolVersion33
            SecurityTypeUnknwon ([9; 9; 9; 1] ++ [3]))
    = Ok (tt, s') /\
    st_state s' = ServerInitState /\
    st_avail s' = [3] /\
    sent (st_trace s') = [1].
Proof.
  destruct (@security33_low_byte_decides ToyCodecs
              (handshaking_state SecurityState ProtocolVersion33
                 SecurityTypeUnknwon ([9; 9; 9; 1] ++ [3]))
              9 9 9 [3] eq_refl eq_refl eq_refl eq_refl)
    as (s' & H1 & H2 & H3 & H4 & H5).
  exists s'. split; [exact H1|]. split; [exact H2|]. split; [exact H4|].
  rewrite H5. reflexivity.
Defined.

Lemma security33_unsupported_type_witness :
  exists s',
    read (handshaking_state (C := ToyCodecs) SecurityState ProtocolVersion33
            SecurityTypeUnknwon ([0; 0; 0; 2] ++ []))
    = Ok (tt, s') /\
    st_state s' = SecurityState /\
    warnings (st_trace s') = [W_SecurityNotSupported 2] /\
    writes (st_trace s') = [].
Proof.
  destruct (@security33_unsupported_type ToyCodecs
              (handshaking_state SecurityState ProtocolVersion33
                 SecurityTypeUnknwon ([0; 0; 0; 2] ++ []))
              0 0 0 2 [] eq_refl eq_refl eq_refl eq_refl ltac:(lia))
    as (s' & H1 & H2 & H3 & H4 & H5 & H6).
  exists s'. split; [exact H1|]. split; [exact H2|].
  rewrite H5. split; reflexivity.
Defined.

Lemma parseSecurityReason_cases_witness :
  parseSecurityReason
    (handshaking_state (C := ToyCodecs) SecurityState ProtocolVersion33
       SecurityTypeInvalid (be32 5 ++ [104; 105]))
  = Ok (tt, handshaking_state SecurityState ProtocolVersion33
              SecurityTypeInvalid [104; 105]).
Proof.
  apply (proj1 (@parseSecurityReason_cases ToyCodecs
                  (handshaking_state SecurityState ProtocolVersion33
                     SecurityTypeInvalid (be32 5 ++ [104; 105]))
                  (be32 5) [104; 105] eq_refl eq_refl)).
  side.
Defined.

Lemma security37_none_wins_witness :
  exists s',
    read (handshaking_state (C := ToyCodecs) SecurityState ProtocolVersion37
            SecurityTypeUnknwon (lenZ [2; 1] :: [2; 1] ++ []))
    = Ok (tt, s') /\
    st_state s' = ServerInitState /\
    st_avail s' = [] /\
    sent (st_trace s') = [1; 1].
Proof.
  destruct (proj1 (@security37_none_wins ToyCodecs
                     (handshaking_state SecurityState ProtocolVersion37
                        SecurityTypeUnknwon (lenZ [2; 1] :: [2; 1] ++ []))
                     [2; 1] [] eq_refl eq_refl eq_refl
                     ltac:(side) (or_intror (or_introl eq_refl)))
              eq_refl)
    as (s' & H1 & H2 & H3 & H4).
  exists s'. split; [exact H1|]. split; [exact H2|]. split; [exact H3|].
  rewrite H4. reflexivity.
Defined.

Lemma read_never_steps_back_witness :
  HandshakingState_value ProtocolVersionState
  <= HandshakingState_value
       (st_state (toy_result read
                    (handshaking_state ProtocolVersionState
                       ProtocolVersionUnknown SecurityTypeUnknwon RFB_003_008))).
Proof.
  apply (@read_never_steps_back ToyCodecs
           (handshaking_state ProtocolVersionState ProtocolVersionUnknown
              SecurityTypeUnknwon RFB_003_008)).
  side.
Defined.

Lemma read_selects_only_33_witness :
  st_protocolVersion
    (toy_result read
       (handshaking_state ProtocolVersionState ProtocolVersionUnknown
          SecurityTypeUnknwon RFB_003_008))
  = ProtocolVersionUnknown \/
  st_protocolVersion
    (toy_result read
       (handshaking_state ProtocolVersionState ProtocolVersionUnknown
          SecurityTypeUnknwon RFB_003_008))
  = ProtocolVersion33.
Proof.
  apply (@read_selects_only_33 ToyCodecs
           (handshaking_state ProtocolVersionState ProtocolVersionUnknown
              SecurityTypeUnknwon RFB_003_008)).
  side.
Defined.

Lemma security_result_is_never_read_witness :
  exists s',
    on_readyRead_all [[1; 2]; [3]]
      (handshaking_state (C := ToyCodecs) SecurityResultState ProtocolVersion38
         SecurityTypeNone [])
    = Ok (tt, s') /\
    st_state s' = SecurityResultState /\
    st_trace s' = [] /\
    st_avail s' = [].
Proof.
  destruct (@security_result_is_never_read ToyCodecs [[1; 2]; [3]]
              (handshaking_state SecurityResultState ProtocolVersion38
                 SecurityTypeNone [])
              (or_introl eq_refl))
    as (s' & H1 & H2 & H3 & H4).
  exists s'. split; [exact H1|]. split; [exact H2|]. split; [exact H3|].
  apply H4. discriminate.
Defined.

Lemma parserServerInit_name_pending_witness :
  exists s',
    parserServerInit
      (handshaking_state (C := ToyCodecs) ServerInitState ProtocolVersion33
         SecurityTypeNone
         (be16 4 ++ be16 3 ++ PixelFormat_to_bytes (pf_rgb888 0) ++ be32 3
          ++ [65]))
    = Ok (tt, s') /\
    st_state s' = ServerInitState /\
    st_avail s' = [65] /\
    sent (st_trace s') = [] /\
    st_frameBufferWidth s' = 4 /\ st_frameBufferHeight s' = 3.
Proof.
  destruct (@parserServerInit_name_pending ToyCodecs
              (handshaking_state ServerInitState ProtocolVersion33
                 SecurityTypeNone
                 (be16 4 ++ be16 3 ++ PixelFormat_to_bytes (pf_rgb888 0)
                  ++ be32 3 ++ [65]))
              (be16 4) (be16 3) (PixelFormat_to_bytes (pf_rgb888 0)) (be32 3)
              [65] eq_refl eq_refl eq_refl eq_refl eq_refl ltac:(side))
    as (s' & H1 & H2 & H3 & H4 & H5 & H6 & _).
  exists s'. split; [exact H1|]. split; [exact H2|]. split; [exact H3|].
  rewrite H4, H5, H6. repeat split.
Defined.

Lemma server_init_reply_bytes_witness :
  exists s',
    parserServerInit run_server_init = Ok (tt, s') /\
    st_state s' = WaitingState /\
    st_avail s' = [] /\
    sent (new_trace run_server_init s')
    = [0; 32; 32; 32] ++ PixelFormat_to_bytes (pf_rgb888 0)
      ++ [2; 32; 0; 4; 0; 0; 0; 7; 0; 0; 0; 16; 0; 0; 0; 5; 0; 0; 0; 0]
      ++ [3; 0; 0; 0; 0; 0] ++ be16 4 ++ be16 4.
Proof.
  apply (@server_init_reply_bytes ToyCodecs run_server_init
           (be16 4) (be16 4) (PixelFormat_to_bytes (pf_rgb888 0)) (be32 0)
           [] []);
    try reflexivity;
    cbv; repeat constructor; discriminate.
Defined.



Lemma zrle_run_length_tile_skipped_witness :
  handleZRLEEncoding (mkRect 0 0 1 1)
    (waiting_state (C := ToyCodecs) (pf_rgb888 0) 4 4 (be32 1 ++ [3] ++ []) [])
  = Ok (tt, add_trace [Warn W_ZrleRlePalette]
              (waiting_state (pf_rgb888 0) 4 4 [] [])).
Proof.
  apply (@zrle_run_length_tile_skipped ToyCodecs
           (waiting_state (pf_rgb888 0) 4 4 (be32 1 ++ [3] ++ []) [])
           (mkRect 0 0 1 1) (be32 1) [3] [] [] 3);
    side.
Defined.

Lemma read_payload_exact_witness :
  lenZ [1; 2; 3] = 3 /\
  [1; 2; 3]
  ++ st_avail (toy_result (read_payload 3)
                 (waiting_state (pf_rgb888 0) 4 4 [1; 2] [[3; 4]]))
  ++ concat (st_pending (toy_result (read_payload 3)
                           (waiting_state (pf_rgb888 0) 4 4 [1; 2] [[3; 4]])))
  = [1; 2] ++ concat [[3; 4]].
Proof.
  apply (@read_payload_exact ToyCodecs
           (waiting_state (pf_rgb888 0) 4 4 [1; 2] [[3; 4]])
           (toy_result (read_payload 3)
              (waiting_state (pf_rgb888 0) 4 4 [1; 2] [[3; 4]]))
           3 [1; 2; 3]);
    side.
Defined.



Lemma decoders_paint_inside_rectangle_witness :
  keeps_outside (mkRect 1 2 1 1)
    (waiting_state (C := ToyCodecs) (pf_rgb888 0) 4 4 [2; 0; 0; 255; 0] [])
    (toy_result (handleHextileEncoding (mkRect 1 2 1 1))
       (waiting_state (pf_rgb888 0) 4 4 [2; 0; 0; 255; 0] [])).
Proof.
  apply (@decoders_paint_inside_rectangle ToyCodecs (mkRect 1 2 1 1)).
  right. left. vm_compute. reflexivity.
Defined.

Lemma raw_waits_forever_witness :
  handleRawEncoding (mkRect 0 0 1 1)
    (waiting_state (C := ToyCodecs) (pf_rgb888 0) 4 4 [1; 2; 3] [])
  = Blocked.
Proof.
  apply (@raw_waits_forever ToyCodecs
           (waiting_state (pf_rgb888 0) 4 4 [1; 2; 3] []) (mkRect 0 0 1 1));
    side.
Defined.

Lemma zrle_timeout_uses_truncated_block_witness :
  handleZRLEEncoding (mkRect 0 0 1 1)
    (waiting_state (C := ToyCodecs) (pf_rgb888 0) 4 4 (be32 9 ++ [1; 0]) [[0]])
  = zrle_decoded (mkRect 0 0 1 1)
      (qUncompress (Codecs := ToyCodecs) ([1; 0] ++ concat [[0]]))
      (add_trace [Warn W_ZrleTimeout]
         (waiting_state (pf_rgb888 0) 4 4 [] [])).
Proof.
  apply (@zrle_timeout_uses_truncated_block ToyCodecs
           (waiting_state (pf_rgb888 0) 4 4 (be32 9 ++ [1; 0]) [[0]])
           (mkRect 0 0 1 1) (be32 9) [1; 0]);
    side.
Defined.


Lemma raw_unsupported_depth_leaves_data_unread_witness :
  exists s',
    framebufferUpdate_dispatch (mkRect 0 0 1 1) RawEncoding
      (waiting_state (C := ToyCodecs) pf_16bpp 4 4 [1; 2] [])
    = Ok (Next, s') /\
    st_avail s' = [1; 2] /\
    st_trace s' = [Warn (W_BppNotSupported 16);
                   Emit (imageChanged 0 0 1 1)].
Proof.
  destruct (@raw_unsupported_depth_leaves_data_unread ToyCodecs
              (waiting_state pf_16bpp 4 4 [1; 2] []) (mkRect 0 0 1 1)
              ltac:(side) ltac:(side) ltac:(side) ltac:(side) ltac:(side))
    as (s' & H1 & H2 & _ & H4).
  exists s'. split; [exact H1|]. split; [exact H4 | exact H2].
Defined.

Lemma one_server_message_per_read_witness :
  read (waiting_state (C := ToyCodecs) (pf_rgb888 0) 4 4 [0; 0; 0; 0; 7] [])
  = Ok (tt, add_trace (request_actions 4 4)
              (waiting_state (pf_rgb888 0) 4 4 [7] [])).
Proof.
  exact (proj1 (@one_server_message_per_read ToyCodecs
                  (waiting_state (pf_rgb888 0) 4 4 [0; 0; 0; 0; 7] [])
                  eq_refl) 0 [7] eq_refl).
Defined.
